(** * Curlicue: the tapering spiral mesh of [curlicue.py]

    A shallow embedding of [Curlicue.action_common] and of the pieces of
    Python and of Blender's [mathutils] it runs on, followed by the
    properties of the generated mesh.

    Numbers.  [nr_points] is a Python [int], embedded as [Z].  Python
    [float]s are embedded as real numbers: rounding, overflow, infinities
    and NaN are outside the model, so every numeric statement below is a
    statement about the exact formulas the code evaluates.  What the model
    does keep of Python's arithmetic is the part that changes control flow:
    [/] raises [ZeroDivisionError] on a zero divisor, and [**] raises
    [ZeroDivisionError] on [0.0 ** negative] and yields a [complex] on a
    negative base with a fractional exponent. *)

From Stdlib Require Import Reals Lra Lia ZArith List String Bool.
Import ListNotations.

Open Scope R_scope.

(** ** Exceptions and the result of a computation that may raise *)

(** [Failure] is the class declared in the source; the other two are the
    builtin exceptions the arithmetic of the loop body can raise. *)
Inductive exn : Type :=
| Failure (msg : string)
| ZeroDivisionError
| TypeError.

Inductive result (A : Type) : Type :=
| Ok (a : A)
| Raise (e : exn).

Arguments Ok {A} a.
Arguments Raise {A} e.

Definition bind {A B : Type} (m : result A) (k : A -> result B) : result B :=
  match m with
  | Ok a => k a
  | Raise e => Raise e
  end.

Notation "x <- m ;; k" := (bind m (fun x => k))
  (at level 61, m at next level, right associativity).

(** ** Python numbers *)

(** The values the variable [radius] of the loop body can hold. *)
Inductive pynum : Type :=
| PyFloat (x : R)
| PyComplex (re im : R).

(** [x / y] on floats (and the true division of two ints). *)
Definition py_truediv (x y : R) : result R :=
  if Req_EM_T y 0 then Raise ZeroDivisionError else Ok (x / y).

(** [x ** y] on floats, following the case analysis of [float_pow]:
    anything to the power [0.0] is [1.0]; a zero base with a negative
    exponent raises; a negative base with a fractional exponent is handed
    to the complex power, whose result has modulus [|x| ** y] and argument
    [pi * y]. *)
Definition py_pow (x y : R) : result pynum :=
  if Req_EM_T y 0 then Ok (PyFloat 1)
  else if Req_EM_T x 0 then
    if Rlt_dec y 0 then Raise ZeroDivisionError else Ok (PyFloat 0)
  else if Rlt_dec x 0 then
    if Req_EM_T (IZR (Int_part y)) y
    then Ok (PyFloat (powerRZ x (Int_part y)))
    else Ok (PyComplex (Rpower (- x) y * cos (PI * y))
                       (Rpower (- x) y * sin (PI * y)))
  else Ok (PyFloat (Rpower x y)).

(** [x * v] for a float [x]. *)
Definition py_mul (x : R) (v : pynum) : pynum :=
  match v with
  | PyFloat y => PyFloat (x * y)
  | PyComplex re im => PyComplex (x * re) (x * im)
  end.

(** ** mathutils: 3D vectors and 4x4 matrices *)

Definition Vector : Type := (R * R * R)%type.

Definition vx (v : Vector) : R := fst (fst v).
Definition vy (v : Vector) : R := snd (fst v).
Definition vz (v : Vector) : R := snd v.

(** [Vector((x, 0, 0))]: every component has to convert to a float, which
    a [complex] does not. *)
Definition mkVector (x : pynum) (y z : R) : result Vector :=
  match x with
  | PyFloat x => Ok (x, y, z)
  | PyComplex _ _ => Raise TypeError
  end.

Definition Row : Type := (R * R * R * R)%type.

(** A 4x4 matrix, row by row. *)
Record Matrix : Type := mkMatrix { row0 : Row; row1 : Row; row2 : Row; row3 : Row }.

Definition c0 (r : Row) : R := fst (fst (fst r)).
Definition c1 (r : Row) : R := snd (fst (fst r)).
Definition c2 (r : Row) : R := snd (fst r).
Definition c3 (r : Row) : R := snd r.

Definition col (k : Row -> R) (m : Matrix) : Row :=
  (k (row0 m), k (row1 m), k (row2 m), k (row3 m)).

Definition dot (a b : Row) : R :=
  c0 a * c0 b + c1 a * c1 b + c2 a * c2 b + c3 a * c3 b.

(** [Matrix.Rotation(angle, 4, "Z")] *)
Definition Rotation_Z (angle : R) : Matrix :=
  mkMatrix (cos angle, - sin angle, 0, 0)
           (sin angle,   cos angle, 0, 0)
           (0, 0, 1, 0)
           (0, 0, 0, 1).

(** [Matrix.Translation(v)] *)
Definition Translation (v : Vector) : Matrix :=
  mkMatrix (1, 0, 0, vx v)
           (0, 1, 0, vy v)
           (0, 0, 1, vz v)
           (0, 0, 0, 1).

Definition row_mul (r : Row) (b : Matrix) : Row :=
  (dot r (col c0 b), dot r (col c1 b), dot r (col c2 b), dot r (col c3 b)).

(** [a @ b] on two matrices *)
Definition matmul (a b : Matrix) : Matrix :=
  mkMatrix (row_mul (row0 a) b) (row_mul (row1 a) b)
           (row_mul (row2 a) b) (row_mul (row3 a) b).

(** [m @ v] on a 4x4 matrix and a 3D vector: the vector is extended with
    a fourth coordinate [1] and the result is again a 3D vector. *)
Definition matvec (m : Matrix) (v : Vector) : Vector :=
  let v4 : Row := (vx v, vy v, vz v, 1) in
  (dot (row0 m) v4, dot (row1 m) v4, dot (row2 m) v4).

Infix "@" := matmul (at level 40, left associativity).
Infix "@@" := matvec (at level 41, no associativity).

(** ** The operator and its properties *)

(** The properties of a [Curlicue] instance that [action_common] reads. *)
Record Curlicue : Type := mkCurlicue {
  curve_type : string;
  nr_points : Z;
  nr_turns : R;
  radius : R;
  inner_taper : R;
  outer_taper : R;
  linear_offset : R;
  radius_ratio : R
}.

(** ** The body of the loop, one assignment after the other *)

(** The message of the [Failure] the loop body raises. *)
Definition unrecognized : string := "SHOULDN’T OCCUR: unrecognized curve type".

Section Body.

Variable self : Curlicue.
Variable i : Z.

(** [i / self.nr_points]: the true division of two ints *)
Definition fraction : result R :=
  py_truediv (IZR i) (IZR (nr_points self)).

(** [angle = i / self.nr_points * self.nr_turns * 2 * math.pi] *)
Definition angle_at : result R :=
  t <- fraction ;;
  Ok (t * nr_turns self * 2 * PI).

(** The [if]/[elif]/[else] that assigns [radius]. *)
Definition radius_at (angle : R) : result pynum :=
  if (curve_type self =? "linear")%string then
    t <- fraction ;;
    Ok (PyFloat (t * (radius self - linear_offset self) + linear_offset self))
  else if (curve_type self =? "log")%string then
    turn <- py_truediv angle (2 * PI) ;;
    w <- py_pow (radius_ratio self) (turn - nr_turns self) ;;
    Ok (py_mul (radius self) w)
  else
    Raise (Failure unrecognized).

(** [width = self.outer_taper * i / self.nr_points
           + self.inner_taper * (1 - i / self.nr_points)] *)
Definition width_at : result R :=
  a <- py_truediv (outer_taper self * IZR i) (IZR (nr_points self)) ;;
  t <- fraction ;;
  Ok (a + inner_taper self * (1 - t)).

End Body.

(** [to_midpoint @ Matrix.Rotation(orient +/- math.pi / 2, 4, "Z")
       @ Matrix.Translation(Vector((width / 2, 0, 0))) @ Vector((0, 0, 0))];
    [turn] is [orient + math.pi / 2] for [pt1] and [orient - math.pi / 2]
    for [pt2]. *)
Definition edge_point (to_midpoint : Matrix) (turn width : R) : result Vector :=
  half <- py_truediv width 2 ;;
  offset <- mkVector (PyFloat half) 0 0 ;;
  origin <- mkVector (PyFloat 0) 0 0 ;;
  Ok (to_midpoint @ Rotation_Z turn @ Translation offset @@ origin).

(** From [to_midpoint = ...] to [pt2 = ...]. *)
Definition edge_points (angle : R) (radius : pynum) (width : R)
  : result (Vector * Vector) :=
  centre <- mkVector radius 0 0 ;;
  let to_midpoint := Rotation_Z angle @ Translation centre in
  orient <- py_truediv PI 2 ;;
  q1 <- py_truediv PI 2 ;;
  pt1 <- edge_point to_midpoint (orient + q1) width ;;
  q2 <- py_truediv PI 2 ;;
  pt2 <- edge_point to_midpoint (orient - q2) width ;;
  Ok (pt1, pt2).

(** The two points one iteration appends. *)
Definition sample (self : Curlicue) (i : Z) : result (Vector * Vector) :=
  angle <- angle_at self i ;;
  radius <- radius_at self i angle ;;
  width <- width_at self i ;;
  edge_points angle radius width.

(** ** The loop *)

Definition Face : Type := list Z.

(** [list(len(vertices) + i for i in (-4, -3, -1, -2))]; the [i] of the
    generator expression is its own and leaves the loop's [i] alone. *)
Definition new_face (count : Z) : Face :=
  map (fun j => count + j)%Z [-4; -3; -1; -2]%Z.

Definition len {A : Type} (l : list A) : Z := Z.of_nat (List.length l).

(** One iteration on the two accumulators. *)
Definition loop_body (self : Curlicue) (acc : list Vector * list Face) (i : Z)
  : result (list Vector * list Face) :=
  pts <- sample self i ;;
  let vertices := fst acc ++ [fst pts; snd pts] in
  let faces :=
    if (4 <=? len vertices)%Z then snd acc ++ [new_face (len vertices)]
    else snd acc in
  Ok (vertices, faces).

(** [range(n)] *)
Definition range (n : Z) : list Z := map Z.of_nat (seq 0 (Z.to_nat n)).

Fixpoint for_each {S : Type} (body : S -> Z -> result S) (l : list Z) (acc : S)
  : result S :=
  match l with
  | [] => Ok acc
  | i :: l' => acc' <- body acc i ;; for_each body l' acc'
  end.

(** The [for] loop of [action_common], from [vertices = []] and
    [faces = []]. *)
Definition generate (self : Curlicue) : result (list Vector * list Face) :=
  for_each (loop_body self) (range (nr_points self)) ([], []).

(** ** The host and [action_common] *)

Record Mesh : Type := mkMesh {
  mesh_name : string;
  mesh_vertices : list Vector;
  mesh_edges : list (list Z);
  mesh_faces : list Face
}.

(** What [action_common] can change outside itself: the meshes added to
    the scene, the operator's reports and standard error. *)
Record Host : Type := mkHost {
  scene : list Mesh;
  reports : list (string * string);
  stderr : list string
}.

Inductive status : Type := FINISHED | CANCELLED.

Definition curve_name : string := "Curlicue".

(** [the_curve.from_pydata(vertices, [], faces)] and
    [object_utils.object_data_add(context, the_curve, name = curve_name)] *)
Definition object_data_add (h : Host) (vertices : list Vector) (faces : list Face) : Host :=
  mkHost (scene h ++ [mkMesh curve_name vertices [] faces]) (reports h) (stderr h).

(** The [except Failure as why] clause. *)
Definition report_failure (h : Host) (msg : string) : Host :=
  mkHost (scene h)
         (reports h ++ [("ERROR"%string, msg)])
         (stderr h ++ [("Failure: " ++ msg ++ String (Ascii.ascii_of_nat 10) "")%string]).

(** [action_common]: the returned status, or the exception that escapes
    the [try] because it is no [Failure], with the host as it is left. *)
Definition action_common (self : Curlicue) (h : Host) : result status * Host :=
  match generate self with
  | Ok (vertices, faces) => (Ok FINISHED, object_data_add h vertices faces)
  | Raise (Failure msg) => (Ok CANCELLED, report_failure h msg)
  | Raise e => (Raise e, h)
  end.

(** ** What the loop leaves in its accumulators *)

(** The faces that [m] further iterations append when [count] vertices
    have been accumulated so far. *)
Fixpoint faces_from (count : Z) (m : nat) : list Face :=
  match m with
  | O => []
  | S m' =>
      let count' := (count + 2)%Z in
      (if (4 <=? count')%Z then [new_face count'] else [])
        ++ faces_from count' m'
  end.

(** Face [k] of the strip, as the specification writes it. *)
Definition quad (k : Z) : Face :=
  [2 * k; 2 * k + 1; 2 * k + 3; 2 * k + 2]%Z.

(** The two points of a sample in the order they are appended. *)
Definition both (pts : Vector * Vector) : list Vector := [fst pts; snd pts].

(** ** The vocabulary of the properties *)

Definition linear (self : Curlicue) : Prop := curve_type self = "linear"%string.
Definition logarithmic (self : Curlicue) : Prop := curve_type self = "log"%string.

(** The two items of the [EnumProperty]. *)
Definition recognized (self : Curlicue) : Prop := linear self \/ logarithmic self.


(** The lower bounds the property declarations put on what the user can
    enter ([min = ...]), together with the items of the enumeration. *)
Definition enforced (self : Curlicue) : Prop :=
  (1 <= nr_points self)%Z /\ 1 / 10 <= radius self /\
  0 <= inner_taper self /\ 0 <= outer_taper self /\
  0 <= linear_offset self /\ 0 <= radius_ratio self /\
  recognized self.

(** The parameter sets on which the branch taken for [radius] yields a
    float whatever the index: the linear ones, and the logarithmic ones
    with a positive ratio. *)
Definition radius_defined (self : Curlicue) : Prop :=
  linear self \/ (logarithmic self /\ 0 < radius_ratio self).

(** The image of the origin under [to_midpoint]. *)
Definition midpoint (angle r : R) : Vector :=
  Rotation_Z angle @ Translation (r, 0, 0) @@ (0, 0, 0).


(** The parametric fraction [t] of sample [i]. *)
Definition t_of (self : Curlicue) (i : Z) : R := IZR i / IZR (nr_points self).

(** The formulas of the specification, as functions of [t]. *)
Definition linear_radius (self : Curlicue) (t : R) : R :=
  t * (radius self - linear_offset self) + linear_offset self.

Definition log_radius (self : Curlicue) (t : R) : R :=
  radius self * Rpower (radius_ratio self) (nr_turns self * (t - 1)).

Definition width_formula (self : Curlicue) (t : R) : R :=
  outer_taper self * t + inner_taper self * (1 - t).


(** ** Parameter sets used as examples *)

(** The scenario of the specification: four points on one linear turn. *)
Definition four_linear : Curlicue :=
  mkCurlicue "linear" 4 1 2 (2 / 10) 0 0 1.

(** One point of a logarithmic spiral whose ratio was dragged down to the
    minimum the property allows, everything else at its default. *)
Definition zero_ratio : Curlicue :=
  mkCurlicue "log" 1 1 1 (1 / 10) 0 0 0.




(** A curve type outside the enumeration. *)
Definition cubic : Curlicue :=
  mkCurlicue "cubic" 3 1 1 (1 / 10) 0 0 1.




(** A host with nothing in it yet. *)
Definition empty_host : Host := mkHost [] [] [].

(** ** Further vocabulary *)

(** Distance of a point from the origin. *)
Definition norm (v : Vector) : R :=
  sqrt (Rsqr (vx v) + Rsqr (vy v) + Rsqr (vz v)).

(** Two parameter sets that differ at most in the size parameters:
    [radius], the tapers and [linear_offset]. *)
Definition same_shape (self other : Curlicue) : Prop :=
  curve_type self = curve_type other /\
  nr_points self = nr_points other /\
  nr_turns self = nr_turns other /\
  radius_ratio self = radius_ratio other.

(** No points at all, on a curve type outside the enumeration. *)
Definition no_points : Curlicue :=
  mkCurlicue "cubic" 0 1 1 (1 / 10) 0 0 1.

(** Two points on one turn with ratio [-1]: the exponents are [-1] and
    [-1/2]. *)
Definition late_complex : Curlicue :=
  mkCurlicue "log" 2 1 1 (1 / 10) 0 0 (- 1).



(** A linear spiral that starts outside its nominal radius. *)
Definition inward_linear : Curlicue :=
  mkCurlicue "linear" 4 1 1 (2 / 10) (1 / 10) 3 1.

(** [zero_ratio] with other sizes. *)
Definition zero_ratio_resized : Curlicue :=
  mkCurlicue "log" 1 1 5 0 2 7 0.

(** No turns at all, with a negative ratio. *)
Definition no_turns : Curlicue :=
  mkCurlicue "log" 3 0 2 (1 / 10) 0 0 (- 1).

(** ** The decorator [props_compat]

    [props_compat] works on a class object through [dir], [getattr],
    [delattr] and [hasattr], and on [bpy.props] through [dir] and
    [getattr].  The model keeps what these can tell apart.  Attribute
    lookup on a class is the ordinary one of the Python versions Blender
    2.8x and 2.9x bundle: the class's own dictionary first, then what its
    bases provide, [__annotations__] included. *)

Module Compat.

Inductive exn : Type := TypeError | AttributeError.

Inductive result (A : Type) : Type :=
| Ok (a : A)
| Raise (e : exn).

Arguments Ok {A} a.
Arguments Raise {A} e.

(** The values the decorator tells apart: the functions of [bpy.props],
    each known by its name there; tuples; dictionaries with string keys,
    in insertion order; and every other object, of which only whether it
    can be hashed matters. *)
#[warnings="-register-all"]
Inductive pyvalue : Type :=
| Function (name : string)
| Tuple (items : list pyvalue)
| Dict (items : list (string * pyvalue))
| Object (hashable : bool).

(** Whether [hash(v)] succeeds. *)
Fixpoint hashable (v : pyvalue) : bool :=
  match v with
  | Function _ => true
  | Tuple items => forallb hashable items
  | Dict _ => false
  | Object h => h
  end.

(** [s.endswith(suffix)] *)
Definition endswith (s suffix : string) : bool :=
  (String.length suffix <=? String.length s)%nat &&
  (substring (String.length s - String.length suffix) (String.length suffix) s
   =? suffix)%string.

(** The names of the members of [prop_funcs], given [dir(bpy.props)]. *)
Definition prop_funcs (bpy_props : list string) : list string :=
  filter (fun propname =>
            endswith propname "Property" && negb (propname =? "RemoveProperty")%string)
         bpy_props.

(** [v in prop_funcs]: the set hashes [v] before it compares. *)
Definition in_prop_funcs (bpy_props : list string) (v : pyvalue) : result bool :=
  if hashable v then
    Ok match v with
       | Function name => existsb (String.eqb name) (prop_funcs bpy_props)
       | _ => false
       end
  else Raise TypeError.

(** [isinstance(prop, tuple) and len(prop) == 2 and prop[0] in prop_funcs] *)
Definition is_definition (bpy_props : list string) (prop : pyvalue) : result bool :=
  match prop with
  | Tuple [head; _] => in_prop_funcs bpy_props head
  | _ => Ok false
  end.

(** A class object: its own dictionary, the attributes its bases
    provide, and the [__annotations__] dictionary of either, if any. *)
Record pyclass : Type := mkClass {
  own : list (string * pyvalue);
  inherited : list (string * pyvalue);
  own_annotations : option (list (string * pyvalue));
  inherited_annotations : option (list (string * pyvalue))
}.

Fixpoint lookup (name : string) (d : list (string * pyvalue)) : option pyvalue :=
  match d with
  | [] => None
  | (k, v) :: d' => if (k =? name)%string then Some v else lookup name d'
  end.

(** [getattr(cllass, name)], [None] standing for [AttributeError]. *)
Definition getattr (cllass : pyclass) (name : string) : option pyvalue :=
  match lookup name (own cllass) with
  | Some v => Some v
  | None => lookup name (inherited cllass)
  end.

Fixpoint insert_sorted (name : string) (l : list string) : list string :=
  match l with
  | [] => [name]
  | x :: l' => if String.leb name x then name :: l else x :: insert_sorted name l'
  end.

Definition sorted (l : list string) : list string := fold_right insert_sorted [] l.

(** [dir(cllass)]: every attribute name once, in alphabetical order
    ([__annotations__], whose value is no tuple, is left out). *)
Definition dir (cllass : pyclass) : list string :=
  sorted (nodup string_dec (map fst (own cllass) ++ map fst (inherited cllass))).

(** The list [props], over the names still to visit. *)
Fixpoint collect (bpy_props : list string) (cllass : pyclass) (names : list string)
  : result (list (string * pyvalue)) :=
  match names with
  | [] => Ok []
  | name :: rest =>
      match getattr cllass name with
      | None => Raise AttributeError
      | Some prop =>
          match is_definition bpy_props prop with
          | Raise e => Raise e
          | Ok keep =>
              match collect bpy_props cllass rest with
              | Raise e => Raise e
              | Ok props => Ok (if keep then (name, prop) :: props else props)
              end
          end
      end
  end.

Definition remove (name : string) (d : list (string * pyvalue)) : list (string * pyvalue) :=
  filter (fun kv => negb (fst kv =? name)%string) d.

(** [delattr(cllass, name)]: only the class's own dictionary can lose an
    entry. *)
Definition delattr (cllass : pyclass) (name : string) : result pyclass :=
  match lookup name (own cllass) with
  | Some _ =>
      Ok (mkClass (remove name (own cllass)) (inherited cllass)
                  (own_annotations cllass) (inherited_annotations cllass))
  | None => Raise AttributeError
  end.

(** The [for prop in props] loop: the exception that ended it, if any,
    and the class as the loop left it. *)
Fixpoint delete_props (cllass : pyclass) (props : list (string * pyvalue))
  : option exn * pyclass :=
  match props with
  | [] => (None, cllass)
  | prop :: rest =>
      match delattr cllass (fst prop) with
      | Ok cllass' => delete_props cllass' rest
      | Raise e => (Some e, cllass)
      end
  end.

(** [hasattr(cllass, "__annotations__")] *)
Definition hasattr_annotations (cllass : pyclass) : bool :=
  match own_annotations cllass, inherited_annotations cllass with
  | None, None => false
  | _, _ => true
  end.

(** [d[key] = value] *)
Fixpoint setitem (d : list (string * pyvalue)) (key : string) (value : pyvalue)
  : list (string * pyvalue) :=
  match d with
  | [] => [(key, value)]
  | (k, v) :: d' =>
      if (k =? key)%string then (k, value) :: d' else (k, v) :: setitem d' key value
  end.

(** [d.update(items)] *)
Definition update (d items : list (string * pyvalue)) : list (string * pyvalue) :=
  fold_left (fun d kv => setitem d (fst kv) (snd kv)) items d.

(** [dict(props)] *)
Definition dict (props : list (string * pyvalue)) : list (string * pyvalue) :=
  update [] props.

(** [cllass.__annotations__.update(d)]: the dictionary that the lookup
    finds is the one that changes, be it the class's own or a base's. *)
Definition update_annotations (cllass : pyclass) (d : list (string * pyvalue))
  : option exn * pyclass :=
  match own_annotations cllass, inherited_annotations cllass with
  | Some a, _ =>
      (None, mkClass (own cllass) (inherited cllass)
                     (Some (update a d)) (inherited_annotations cllass))
  | None, Some a =>
      (None, mkClass (own cllass) (inherited cllass) None (Some (update a d)))
  | None, None => (Some AttributeError, cllass)
  end.

(** [props_compat(cllass)]: the exception it raises, if any, and the
    class object as it is afterwards. *)
Definition props_compat (bpy_props : list string) (cllass : pyclass)
  : option exn * pyclass :=
  match collect bpy_props cllass (dir cllass) with
  | Raise e => (Some e, cllass)
  | Ok props =>
      match delete_props cllass props with
      | (Some e, cllass') => (Some e, cllass')
      | (None, cllass') =>
          let cllass'' :=
            if hasattr_annotations cllass' then cllass'
            else mkClass (own cllass') (inherited cllass') (Some [])
                         (inherited_annotations cllass') in
          update_annotations cllass'' (dict props)
      end
  end.

(** The annotations an attribute lookup finds. *)
Definition annotations (cllass : pyclass) : option (list (string * pyvalue)) :=
  match own_annotations cllass with
  | Some a => Some a
  | None => inherited_annotations cllass
  end.

(** Whether the attribute [name] that [getattr] finds is a property
    definition. *)
Definition defines (bpy_props : list string) (cllass : pyclass) (name : string) : bool :=
  match getattr cllass name with
  | Some prop =>
      match is_definition bpy_props prop with
      | Ok keep => keep
      | Raise _ => false
      end
  | None => false
  end.

(** No attribute that [getattr] finds makes the membership test raise. *)
Definition testable (bpy_props : list string) (cllass : pyclass) : Prop :=
  forall name prop,
    getattr cllass name = Some prop -> is_definition bpy_props prop <> Raise TypeError.

(** [dir(bpy.props)] as far as the decorator looks at it. *)
Definition bpy_props_2_83 : list string :=
  ["BoolProperty"; "BoolVectorProperty"; "CollectionProperty"; "EnumProperty";
   "FloatProperty"; "FloatVectorProperty"; "IntProperty"; "IntVectorProperty";
   "PointerProperty"; "RemoveProperty"; "StringProperty"; "__doc__"; "__name__"]%string.

(** Keyword arguments of a property definition. *)
Definition keywords : pyvalue :=
  Dict [("name", Object true); ("description", Object true);
        ("default", Object true)]%string.

(** The body of [class Curlicue] with property definitions in the form
    of tuples: a function of [bpy.props] and its keyword arguments. *)
Definition Curlicue_body : list (string * pyvalue) :=
  [("bl_idname", Object true); ("bl_label", Object true);
   ("bl_context", Object true); ("bl_options", Object false);
   ("curve_type", Tuple [Function "EnumProperty"; keywords]);
   ("nr_points", Tuple [Function "IntProperty"; keywords]);
   ("nr_turns", Tuple [Function "FloatProperty"; keywords]);
   ("radius", Tuple [Function "FloatProperty"; keywords]);
   ("inner_taper", Tuple [Function "FloatProperty"; keywords]);
   ("outer_taper", Tuple [Function "FloatProperty"; keywords]);
   ("linear_offset", Tuple [Function "FloatProperty"; keywords]);
   ("radius_ratio", Tuple [Function "FloatProperty"; keywords]);
   ("draw", Object true); ("action_common", Object true);
   ("execute", Object true); ("invoke", Object true)]%string.

Definition Curlicue_class : pyclass :=
  mkClass Curlicue_body [("bl_rna", Object true)]%string None None.

(** A class that only inherits a property definition. *)
Definition heir : pyclass :=
  mkClass [("angle", Tuple [Function "FloatProperty"; keywords])]%string
          [("size", Tuple [Function "IntProperty"; keywords])]%string
          None None.


(** A class whose only annotations are those of a base. *)
Definition annotated_base : pyclass :=
  mkClass [("angle", Tuple [Function "FloatProperty"; keywords])]%string
          [] None (Some [("size", Object true)]%string).

(** A class whose property definitions are objects, not tuples. *)
Definition deferred : pyclass :=
  mkClass [("bl_idname", Object true); ("radius", Object true);
           ("limits", Tuple [Object true; Object true; Object true])]%string
          [("bl_rna", Object true)]%string None None.

End Compat.

(** ** Elementary facts about the arithmetic *)

Lemma py_truediv_ok (x y : R) : y <> 0 -> py_truediv x y = Ok (x / y).
Proof.
  intro Hy. unfold py_truediv.
  destruct (Req_EM_T y 0) as [E | _]; [contradiction | reflexivity].
Qed.

Lemma py_truediv_zero (x : R) : py_truediv x 0 = Raise ZeroDivisionError.
Proof.
  unfold py_truediv. destruct (Req_EM_T 0 0) as [_ | N]; [reflexivity | now elim N].
Qed.

Lemma py_pow_pos (x y : R) : 0 < x -> py_pow x y = Ok (PyFloat (Rpower x y)).
Proof.
  intro Hx. unfold py_pow.
  destruct (Req_EM_T y 0) as [-> | _].
  - now rewrite Rpower_O.
  - destruct (Req_EM_T x 0) as [E | _]; [lra |].
    destruct (Rlt_dec x 0) as [L | _]; [lra | reflexivity].
Qed.

Lemma py_pow_zero_exponent (x : R) : py_pow x 0 = Ok (PyFloat 1).
Proof.
  unfold py_pow. destruct (Req_EM_T 0 0) as [_ | N]; [reflexivity | now elim N].
Qed.

Lemma py_pow_zero_negative (y : R) : y < 0 -> py_pow 0 y = Raise ZeroDivisionError.
Proof.
  intro Hy. unfold py_pow.
  destruct (Req_EM_T y 0) as [E | _]; [lra |].
  destruct (Req_EM_T 0 0) as [_ | N]; [| now elim N].
  destruct (Rlt_dec y 0) as [_ | N]; [reflexivity | contradiction].
Qed.

Lemma two_PI_neq_0 : 2 * PI <> 0.
Proof. pose proof PI_RGT_0. lra. Qed.

Lemma IZR_points_neq_0 (self : Curlicue) :
  (1 <= nr_points self)%Z -> IZR (nr_points self) <> 0.
Proof. intros H E. apply eq_IZR_R0 in E. lia. Qed.

Lemma IZR_points_pos (self : Curlicue) :
  (1 <= nr_points self)%Z -> 0 < IZR (nr_points self).
Proof. intro H. apply IZR_lt. lia. Qed.

Lemma fraction_ok (self : Curlicue) (i : Z) :
  (1 <= nr_points self)%Z ->
  fraction self i = Ok (IZR i / IZR (nr_points self)).
Proof. intro H. apply py_truediv_ok, IZR_points_neq_0, H. Qed.

Lemma angle_at_ok (self : Curlicue) (i : Z) :
  (1 <= nr_points self)%Z ->
  angle_at self i = Ok (IZR i / IZR (nr_points self) * nr_turns self * 2 * PI).
Proof. intro H. unfold angle_at. now rewrite fraction_ok. Qed.

Lemma width_at_ok (self : Curlicue) (i : Z) :
  (1 <= nr_points self)%Z ->
  width_at self i =
    Ok (outer_taper self * IZR i / IZR (nr_points self)
        + inner_taper self * (1 - IZR i / IZR (nr_points self))).
Proof.
  intro H. unfold width_at.
  rewrite py_truediv_ok by now apply IZR_points_neq_0.
  now rewrite fraction_ok.
Qed.

(** The exponent of the logarithmic branch, [angle / (2 * math.pi) -
    self.nr_turns], in terms of the fraction [t] the angle was built from. *)
Lemma exponent_eq (t turns : R) :
  t * turns * 2 * PI / (2 * PI) - turns = turns * (t - 1).
Proof. pose proof PI_RGT_0. field. lra. Qed.

(** ** The matrix chain *)

(** On a vector, a product is applied factor by factor as long as the
    right factor is affine (its last row is [(0, 0, 0, 1)]). *)
Lemma matvec_matmul (a b : Matrix) (v : Vector) :
  row3 b = (0, 0, 0, 1) -> (a @ b) @@ v = a @@ (b @@ v).
Proof.
  destruct a as [[[[a00 a01] a02] a03] [[[a10 a11] a12] a13]
                 [[[a20 a21] a22] a23] [[[a30 a31] a32] a33]].
  destruct b as [[[[b00 b01] b02] b03] [[[b10 b11] b12] b13]
                 [[[b20 b21] b22] b23] [[[b30 b31] b32] b33]].
  destruct v as [[x y] z].
  cbn [row3]. intro H. injection H as -> -> -> ->.
  unfold matvec, matmul, row_mul, dot, col, c0, c1, c2, c3, vx, vy, vz.
  cbn [row0 row1 row2 row3 fst snd].
  apply f_equal2; [apply f_equal2 |]; ring.
Qed.

Lemma matvec_Rotation_Z (angle : R) (v : Vector) :
  Rotation_Z angle @@ v =
    (cos angle * vx v - sin angle * vy v, sin angle * vx v + cos angle * vy v, vz v).
Proof.
  destruct v as [[x y] z].
  unfold matvec, Rotation_Z, dot, c0, c1, c2, c3, vx, vy, vz.
  cbn [row0 row1 row2 fst snd].
  apply f_equal2; [apply f_equal2 |]; ring.
Qed.

Lemma matvec_Translation (t v : Vector) :
  Translation t @@ v = (vx v + vx t, vy v + vy t, vz v + vz t).
Proof.
  destruct v as [[x y] z]. destruct t as [[tx ty] tz].
  unfold matvec, Translation, dot, c0, c1, c2, c3, vx, vy, vz.
  cbn [row0 row1 row2 fst snd].
  apply f_equal2; [apply f_equal2 |]; ring.
Qed.

(** The chain of [pt1] and [pt2] on the origin. *)
Lemma chain_eq (angle r turn h : R) :
  Rotation_Z angle @ Translation (r, 0, 0) @ Rotation_Z turn @ Translation (h, 0, 0)
    @@ (0, 0, 0) =
    (cos angle * (cos turn * h + r) - sin angle * (sin turn * h),
     sin angle * (cos turn * h + r) + cos angle * (sin turn * h),
     0).
Proof.
  rewrite !matvec_matmul by reflexivity.
  rewrite matvec_Translation, matvec_Rotation_Z, matvec_Translation, matvec_Rotation_Z.
  unfold vx, vy, vz. cbn [fst snd].
  apply f_equal2; [apply f_equal2 |]; ring.
Qed.

Lemma edge_point_eq (angle r turn w : R) :
  edge_point (Rotation_Z angle @ Translation (r, 0, 0)) turn w =
    Ok (cos angle * (cos turn * (w / 2) + r) - sin angle * (sin turn * (w / 2)),
        sin angle * (cos turn * (w / 2) + r) + cos angle * (sin turn * (w / 2)),
        0).
Proof.
  unfold edge_point. rewrite py_truediv_ok by lra.
  cbn [bind mkVector]. f_equal. apply chain_eq.
Qed.

Lemma edge_points_eq (angle r w : R) :
  edge_points angle (PyFloat r) w =
    Ok (((r - w / 2) * cos angle, (r - w / 2) * sin angle, 0),
        ((r + w / 2) * cos angle, (r + w / 2) * sin angle, 0)).
Proof.
  unfold edge_points. cbn [mkVector bind].
  rewrite py_truediv_ok by lra. cbn [bind].
  rewrite !edge_point_eq. cbn [bind].
  replace (PI / 2 + PI / 2) with PI by field.
  replace (PI / 2 - PI / 2) with 0 by field.
  rewrite cos_PI, sin_PI, cos_0, sin_0.
  f_equal. apply f_equal2; (apply f_equal2; [apply f_equal2 |]; ring).
Qed.

Lemma edge_points_complex (angle re im w : R) :
  edge_points angle (PyComplex re im) w = Raise TypeError.
Proof. reflexivity. Qed.

(** ** The loop, by induction on the indices still to visit *)

Lemma len_app {A : Type} (l l' : list A) : len (l ++ l') = (len l + len l')%Z.
Proof. unfold len. rewrite length_app. lia. Qed.

Lemma loop_body_ok (self : Curlicue) (vs : list Vector) (fs : list Face)
      (i : Z) (pts : Vector * Vector) :
  sample self i = Ok pts ->
  loop_body self (vs, fs) i = Ok (vs ++ both pts, fs ++ faces_from (len vs) 1).
Proof.
  intro E. unfold loop_body. rewrite E. cbn [bind fst snd faces_from].
  fold (both pts). rewrite len_app. change (len (both pts)) with 2%Z.
  destruct (4 <=? len vs + 2)%Z; now rewrite ?app_nil_r.
Qed.

Lemma loop_body_raise (self : Curlicue) (acc : list Vector * list Face)
      (i : Z) (e : exn) :
  sample self i = Raise e -> loop_body self acc i = Raise e.
Proof. intro E. unfold loop_body. now rewrite E. Qed.

(** A completed loop visited every index, got a sample at each, and
    appended its two points and the face due at that count. *)
Lemma for_each_inv (self : Curlicue) (l : list Z) :
  forall vs fs vs' fs',
    for_each (loop_body self) l (vs, fs) = Ok (vs', fs') ->
    exists pts,
      Forall2 (fun i p => sample self i = Ok p) l pts /\
      vs' = vs ++ flat_map both pts /\
      fs' = fs ++ faces_from (len vs) (List.length l).
Proof.
  induction l as [| i l IH]; intros vs fs vs' fs' H; cbn [for_each] in H.
  - injection H as <- <-. exists []. cbn. now rewrite !app_nil_r.
  - destruct (sample self i) as [p | e] eqn:E.
    + rewrite (loop_body_ok _ _ _ _ _ E) in H. cbn [bind] in H.
      apply IH in H. destruct H as (pts & HF & -> & ->).
      exists (p :: pts). split; [now constructor |].
      cbn [flat_map List.length faces_from]. rewrite len_app.
      change (len (both p)) with 2%Z. cbn [faces_from].
      now rewrite <- !app_assoc.
    + rewrite (loop_body_raise _ _ _ _ E) in H. discriminate.
Qed.

(** The loop completes when every index it visits has a sample. *)
Lemma for_each_total (self : Curlicue) (l : list Z) :
  Forall (fun i => exists p, sample self i = Ok p) l ->
  forall acc, exists acc', for_each (loop_body self) l acc = Ok acc'.
Proof.
  induction 1 as [| i l [p E] _ IH]; intros [vs fs]; cbn [for_each].
  - now eexists.
  - rewrite (loop_body_ok _ _ _ _ _ E). cbn [bind]. apply IH.
Qed.

(** An exception at the first index ends the loop with that exception. *)
Lemma for_each_raise_first (self : Curlicue) (i : Z) (l : list Z) (e : exn) acc :
  sample self i = Raise e ->
  for_each (loop_body self) (i :: l) acc = Raise e.
Proof. intro E. cbn [for_each]. now rewrite (loop_body_raise _ _ _ _ E). Qed.

Lemma range_length (n : Z) : List.length (range n) = Z.to_nat n.
Proof. unfold range. now rewrite length_map, length_seq. Qed.

Lemma range_In (n i : Z) : In i (range n) <-> (0 <= i < n)%Z.
Proof.
  unfold range. rewrite in_map_iff. split.
  - intros (k & <- & Hk). apply in_seq in Hk. lia.
  - intros H. exists (Z.to_nat i). split; [lia |]. apply in_seq. lia.
Qed.

Lemma range_nth (n i : Z) :
  (0 <= i < n)%Z -> nth_error (range n) (Z.to_nat i) = Some i.
Proof.
  intro H. unfold range. rewrite nth_error_map, nth_error_seq.
  destruct (Nat.ltb_spec (Z.to_nat i) (Z.to_nat n)) as [_ | L]; [| lia].
  cbn. f_equal. lia.
Qed.

Lemma range_first (n : Z) :
  (1 <= n)%Z -> exists l, range n = 0%Z :: l.
Proof.
  intro H. unfold range. destruct (Z.to_nat n) as [| m] eqn:E; [lia |].
  cbn. now eexists.
Qed.

(** The faces of a whole run: none for the first sample, then one per
    sample. *)
(** Two lists of indices are equal when their entries are, one by one. *)
Ltac face_eq := repeat (apply f_equal2; [lia |]); reflexivity.

Lemma faces_from_length (m : nat) :
  forall count : Z, (2 <= count)%Z -> List.length (faces_from count m) = m.
Proof.
  induction m as [| m IH]; intros count H; cbn [faces_from]; [reflexivity |].
  destruct (Z.leb_spec 4 (count + 2)) as [_ | L]; [| lia].
  cbn. f_equal. apply IH. lia.
Qed.

Lemma faces_from_0_length (m : nat) :
  List.length (faces_from 0 m) = Nat.pred m.
Proof.
  destruct m as [| m]; [reflexivity |]. cbn [faces_from].
  cbn. apply faces_from_length. lia.
Qed.

Lemma new_face_quad (k : Z) : new_face (2 * k + 4) = quad k.
Proof. unfold new_face, quad. cbn [map]. face_eq. Qed.

Lemma faces_from_nth (m : nat) :
  forall (c : Z) (j : nat),
    (1 <= c)%Z -> (j < m)%nat ->
    nth_error (faces_from (2 * c) m) j = Some (quad (c - 1 + Z.of_nat j)).
Proof.
  induction m as [| m IH]; intros c j Hc Hj; [lia |].
  cbn [faces_from].
  destruct (Z.leb_spec 4 (2 * c + 2)) as [_ | L]; [| lia].
  destruct j as [| j]; cbn [app nth_error].
  - rewrite <- new_face_quad. do 2 f_equal; lia.
  - replace (2 * c + 2)%Z with (2 * (c + 1))%Z by lia.
    rewrite IH by lia. do 2 f_equal; lia.
Qed.

Lemma faces_from_0_nth (m j : nat) :
  (S j < m)%nat ->
  nth_error (faces_from 0 m) j = Some (quad (Z.of_nat j)).
Proof.
  intro H. destruct m as [| m]; [lia |].
  change (faces_from 0 (S m)) with (faces_from (2 * 1) m).
  rewrite faces_from_nth by lia. do 2 f_equal; lia.
Qed.

(** ** One sample *)

Lemma linear_eqb (self : Curlicue) :
  linear self -> (curve_type self =? "linear")%string = true.
Proof. intro H. now apply String.eqb_eq. Qed.

Lemma logarithmic_eqb (self : Curlicue) :
  logarithmic self ->
  (curve_type self =? "linear")%string = false /\
  (curve_type self =? "log")%string = true.
Proof. unfold logarithmic. intros ->. now split. Qed.

Lemma radius_at_linear (self : Curlicue) (i : Z) (angle : R) :
  (1 <= nr_points self)%Z -> linear self ->
  radius_at self i angle = Ok (PyFloat (linear_radius self (t_of self i))).
Proof.
  intros Hn Hl. unfold radius_at. rewrite (linear_eqb _ Hl).
  now rewrite fraction_ok.
Qed.

(** The logarithmic branch on the angle the loop hands to it: the power,
    with the exponent written in terms of [t], then the product. *)
Lemma radius_at_log (self : Curlicue) (i : Z) :
  logarithmic self ->
  radius_at self i (t_of self i * nr_turns self * 2 * PI) =
    w <- py_pow (radius_ratio self) (nr_turns self * (t_of self i - 1)) ;;
    Ok (py_mul (radius self) w).
Proof.
  intros Hl. unfold radius_at.
  destruct (logarithmic_eqb _ Hl) as [-> ->].
  rewrite py_truediv_ok by apply two_PI_neq_0. cbn [bind].
  now rewrite exponent_eq.
Qed.

Lemma radius_at_log_pos (self : Curlicue) (i : Z) :
  logarithmic self -> 0 < radius_ratio self ->
  radius_at self i (t_of self i * nr_turns self * 2 * PI) =
    Ok (PyFloat (log_radius self (t_of self i))).
Proof.
  intros Hl Hr. rewrite radius_at_log by assumption.
  now rewrite py_pow_pos.
Qed.

Lemma radius_at_unrecognized (self : Curlicue) (i : Z) (angle : R) :
  ~ recognized self -> radius_at self i angle = Raise (Failure unrecognized).
Proof.
  intro H. unfold radius_at.
  destruct (String.eqb_spec (curve_type self) "linear") as [E | _].
  - elim H. now left.
  - destruct (String.eqb_spec (curve_type self) "log") as [E | _].
    + elim H. now right.
    + reflexivity.
Qed.

(** The sample of a parameter set whose radius is a float [r] at [i]. *)
Lemma sample_float (self : Curlicue) (i : Z) (r : R) :
  (1 <= nr_points self)%Z ->
  radius_at self i (t_of self i * nr_turns self * 2 * PI) = Ok (PyFloat r) ->
  let angle := t_of self i * nr_turns self * 2 * PI in
  let w := width_formula self (t_of self i) in
  sample self i =
    Ok (((r - w / 2) * cos angle, (r - w / 2) * sin angle, 0),
        ((r + w / 2) * cos angle, (r + w / 2) * sin angle, 0)).
Proof.
  intros Hn Hr angle w. unfold sample.
  rewrite angle_at_ok by assumption. cbn [bind]. fold (t_of self i).
  rewrite Hr. cbn [bind]. rewrite width_at_ok by assumption. cbn [bind].
  rewrite edge_points_eq. fold (t_of self i).
  replace (outer_taper self * IZR i / IZR (nr_points self)
           + inner_taper self * (1 - t_of self i)) with w; [reflexivity |].
  unfold w, width_formula, t_of. field. now apply IZR_points_neq_0.
Qed.

(** Conversely, a sample that exists came from a float radius. *)
Lemma sample_inv (self : Curlicue) (i : Z) (pts : Vector * Vector) :
  (1 <= nr_points self)%Z ->
  sample self i = Ok pts ->
  exists r,
    radius_at self i (t_of self i * nr_turns self * 2 * PI) = Ok (PyFloat r) /\
    let angle := t_of self i * nr_turns self * 2 * PI in
    let w := width_formula self (t_of self i) in
    pts = (((r - w / 2) * cos angle, (r - w / 2) * sin angle, 0),
           ((r + w / 2) * cos angle, (r + w / 2) * sin angle, 0)).
Proof.
  intros Hn H.
  destruct (radius_at self i (t_of self i * nr_turns self * 2 * PI))
    as [[r | re im] | e] eqn:E.
  - exists r. split; [reflexivity |].
    rewrite (sample_float _ _ _ Hn E) in H. now injection H as <-.
  - exfalso. unfold sample in H. rewrite angle_at_ok in H by assumption.
    cbn [bind] in H. fold (t_of self i) in H. rewrite E in H. cbn [bind] in H.
    rewrite width_at_ok in H by assumption. discriminate.
  - exfalso. unfold sample in H. rewrite angle_at_ok in H by assumption.
    cbn [bind] in H. fold (t_of self i) in H. rewrite E in H. discriminate.
Qed.

Lemma sample_defined (self : Curlicue) (i : Z) :
  (1 <= nr_points self)%Z -> radius_defined self ->
  exists pts, sample self i = Ok pts.
Proof.
  intros Hn Hd.
  assert (H : exists r, radius_at self i (t_of self i * nr_turns self * 2 * PI)
                        = Ok (PyFloat r)).
  { destruct Hd as [Hl | [Hl Hr]]; eexists.
    - now apply radius_at_linear.
    - now apply radius_at_log_pos. }
  destruct H as [r E]. eexists. exact (sample_float _ _ _ Hn E).
Qed.

Lemma sample_unrecognized (self : Curlicue) (i : Z) :
  (1 <= nr_points self)%Z -> ~ recognized self ->
  sample self i = Raise (Failure unrecognized).
Proof.
  intros Hn H. unfold sample. rewrite angle_at_ok by assumption. cbn [bind].
  now rewrite radius_at_unrecognized.
Qed.

(** ** The whole run *)

Lemma flat_map_both_length (pts : list (Vector * Vector)) :
  List.length (flat_map both pts) = (2 * List.length pts)%nat.
Proof. induction pts as [| p pts IH]; cbn; [reflexivity | lia]. Qed.



Lemma generate_inv (self : Curlicue) (vs : list Vector) (fs : list Face) :
  generate self = Ok (vs, fs) ->
  exists pts,
    Forall2 (fun i p => sample self i = Ok p) (range (nr_points self)) pts /\
    vs = flat_map both pts /\
    fs = faces_from 0 (Z.to_nat (nr_points self)).
Proof.
  intro H. apply for_each_inv in H. destruct H as (pts & HF & -> & ->).
  exists pts. now rewrite range_length.
Qed.

Lemma generate_total (self : Curlicue) :
  (1 <= nr_points self)%Z -> radius_defined self ->
  exists vs fs, generate self = Ok (vs, fs).
Proof.
  intros Hn Hd.
  destruct (for_each_total self (range (nr_points self))) with (acc := ([] : list Vector, [] : list Face))
    as [[vs fs] E].
  - apply Forall_forall. intros i _. now apply sample_defined.
  - now exists vs, fs.
Qed.

(** The counts of a completed run. *)
Lemma generate_counts (self : Curlicue) (vs : list Vector) (fs : list Face) :
  generate self = Ok (vs, fs) ->
  len vs = (2 * Z.max 0 (nr_points self))%Z /\
  len fs = Z.max 0 (Z.max 0 (nr_points self) - 1).
Proof.
  intro H. apply generate_inv in H. destruct H as (pts & HF & -> & ->).
  apply Forall2_length in HF. rewrite range_length in HF.
  unfold len. rewrite flat_map_both_length, faces_from_0_length. lia.
Qed.


(** The faces of a completed run. *)
Lemma generate_faces (self : Curlicue) (vs : list Vector) (fs : list Face) (k : Z) :
  generate self = Ok (vs, fs) ->
  (0 <= k < nr_points self - 1)%Z ->
  nth_error fs (Z.to_nat k) = Some (quad k).
Proof.
  intros H Hk. apply generate_inv in H. destruct H as (_ & _ & _ & ->).
  rewrite faces_from_0_nth by lia. do 2 f_equal; lia.
Qed.

Lemma generate_raise_first (self : Curlicue) (e : exn) :
  (1 <= nr_points self)%Z -> sample self 0 = Raise e -> generate self = Raise e.
Proof.
  intros Hn E. unfold generate.
  destruct (range_first _ Hn) as [l ->]. now apply for_each_raise_first.
Qed.

(** ** Where the power of the logarithmic branch is not a float *)

(** A zero ratio on a positive number of turns: the first sample already
    asks for [0.0 ** -nr_turns]. *)
Lemma sample_zero_ratio (self : Curlicue) :
  (1 <= nr_points self)%Z -> logarithmic self ->
  radius_ratio self = 0 -> 0 < nr_turns self ->
  sample self 0 = Raise ZeroDivisionError.
Proof.
  intros Hn Hl Hr Ht. unfold sample.
  rewrite angle_at_ok by assumption. cbn [bind]. fold (t_of self 0).
  rewrite radius_at_log by assumption. rewrite Hr.
  rewrite py_pow_zero_negative; [reflexivity |].
  unfold t_of. replace (0 / IZR (nr_points self)) with 0; [lra |].
  field. now apply IZR_points_neq_0.
Qed.

Lemma generate_zero_ratio (self : Curlicue) :
  (1 <= nr_points self)%Z -> logarithmic self ->
  radius_ratio self = 0 -> 0 < nr_turns self ->
  generate self = Raise ZeroDivisionError.
Proof.
  intros Hn Hl Hr Ht. apply generate_raise_first; [assumption |].
  now apply sample_zero_ratio.
Qed.

(** No integer is a half. *)
Lemma half_not_integer (z : Z) (y : R) : 2 * y = -1 -> IZR z <> y.
Proof.
  intros Hy E. subst y.
  assert (H : IZR (2 * z) = IZR (-1)) by (rewrite mult_IZR; lra).
  apply eq_IZR in H. lia.
Qed.


(** ** Counts *)




(** ** The strip *)

Lemma in_quad (k j : Z) :
  In j (quad k) <->
  (j = 2 * k \/ j = 2 * k + 1 \/ j = 2 * k + 3 \/ j = 2 * k + 2)%Z.
Proof. unfold quad. cbn [In]. intuition auto. Qed.



(** ** Faults *)

(** C4, at a parameter set the property declarations let through: one
    point of a logarithmic spiral with ratio [0.0] and the default single
    turn.  The first power is [0.0 ** -1.0]; its [ZeroDivisionError] is
    no [Failure], so it escapes [action_common]. *)
Theorem zero_ratio_raises :
  enforced zero_ratio /\
  py_pow (radius_ratio zero_ratio) (0 - nr_turns zero_ratio) = Raise ZeroDivisionError /\
  generate zero_ratio = Raise ZeroDivisionError /\
  forall h, action_common zero_ratio h = (Raise ZeroDivisionError, h).
Proof.
  assert (E : generate zero_ratio = Raise ZeroDivisionError).
  { apply generate_zero_ratio; cbn; try reflexivity; try lia; lra. }
  split; [| split; [| split]].
  - unfold enforced, recognized, logarithmic. cbn.
    repeat split; try lia; try lra. now right.
  - cbn. apply py_pow_zero_negative. lra.
  - exact E.
  - intro h. unfold action_common. now rewrite E.
Qed.

(** C5: on at least one point, a curve type that is neither ["linear"]
    nor ["log"] ends the run at its first sample with [Failure] and its
    message; no vertex list and no face list come out of it,
    [action_common] reports the message, returns [CANCELLED] and adds
    no mesh to the scene. *)
Theorem unrecognized_curve_type (self : Curlicue) (h : Host) :
  (1 <= nr_points self)%Z -> ~ recognized self ->
  sample self 0 = Raise (Failure unrecognized) /\
  generate self = Raise (Failure unrecognized) /\
  action_common self h = (Ok CANCELLED, report_failure h unrecognized) /\
  scene (snd (action_common self h)) = scene h /\
  reports (snd (action_common self h)) = reports h ++ [("ERROR"%string, unrecognized)].
Proof.
  intros Hn Hr.
  assert (E : generate self = Raise (Failure unrecognized)).
  { apply generate_raise_first; [assumption |]. now apply sample_unrecognized. }
  split; [now apply sample_unrecognized |]. split; [exact E |].
  unfold action_common. rewrite E. now repeat split.
Qed.

Lemma unrecognized_curve_type_witness :
  (1 <= nr_points cubic)%Z /\ ~ recognized cubic /\
  action_common cubic empty_host =
    (Ok CANCELLED, report_failure empty_host unrecognized).
Proof.
  assert (Hn : (1 <= nr_points cubic)%Z) by (cbn; lia).
  assert (Hr : ~ recognized cubic).
  { intros [H | H]; discriminate H. }
  split; [exact Hn | split; [exact Hr |]].
  exact (proj1 (proj2 (proj2 (unrecognized_curve_type cubic empty_host Hn Hr)))).
Defined.

(** ** The radius *)

Lemma t_of_range (self : Curlicue) (i : Z) :
  (0 <= i < nr_points self)%Z -> 0 <= t_of self i < 1.
Proof.
  intros [H0 Hn]. unfold t_of.
  assert (Hp : 0 < IZR (nr_points self)) by (apply IZR_lt; lia).
  apply IZR_le in H0. apply IZR_lt in Hn. split.
  - apply Rmult_le_pos; [exact H0 | left; now apply Rinv_0_lt_compat].
  - apply Rmult_lt_reg_r with (IZR (nr_points self)); [exact Hp |].
    unfold Rdiv. rewrite Rmult_assoc, Rinv_l by lra. lra.
Qed.

Lemma t_of_increasing (self : Curlicue) (i j : Z) :
  (1 <= nr_points self)%Z -> (i < j)%Z -> t_of self i < t_of self j.
Proof.
  intros Hn Hij. unfold t_of, Rdiv.
  apply Rmult_lt_compat_r.
  - apply Rinv_0_lt_compat. now apply IZR_points_pos.
  - now apply IZR_lt.
Qed.

Lemma t_of_0 (self : Curlicue) : t_of self 0 = 0.
Proof. unfold t_of, Rdiv. apply Rmult_0_l. Qed.



(** C6: on a linear curve with [radius > linear_offset], whatever the
    number of turns, the radius of sample [i] is
    [i / nr_points * (radius - linear_offset) + linear_offset]; it is
    strictly increasing in [i], it is [linear_offset] at [i = 0], and it
    stays strictly below [radius] at every index of the loop. *)
Theorem linear_radius_increasing (self : Curlicue) :
  linear self -> linear_offset self < radius self ->
  (forall i angle, (0 <= i < nr_points self)%Z ->
     radius_at self i angle =
       Ok (PyFloat (IZR i / IZR (nr_points self) * (radius self - linear_offset self)
                    + linear_offset self))) /\
  (forall i j a b ri rj, (0 <= i)%Z -> (i < j)%Z -> (j < nr_points self)%Z ->
     radius_at self i a = Ok (PyFloat ri) ->
     radius_at self j b = Ok (PyFloat rj) ->
     ri < rj) /\
  (forall angle, (1 <= nr_points self)%Z ->
     radius_at self 0 angle = Ok (PyFloat (linear_offset self))) /\
  (forall i angle ri, (0 <= i < nr_points self)%Z ->
     radius_at self i angle = Ok (PyFloat ri) ->
     linear_offset self <= ri < radius self).
Proof.
  intros Hl Hr.
  assert (Hrad : forall i angle, (1 <= nr_points self)%Z ->
            radius_at self i angle = Ok (PyFloat (linear_radius self (t_of self i)))).
  { intros i angle Hn. now apply radius_at_linear. }
  split; [| split; [| split]].
  - intros i angle Hi. apply Hrad. lia.
  - intros i j a b ri rj H0 Hij Hj Hi' Hj'.
    rewrite Hrad in Hi' by lia. rewrite Hrad in Hj' by lia.
    injection Hi' as <-. injection Hj' as <-.
    assert (Ht : t_of self i < t_of self j) by (apply t_of_increasing; lia).
    unfold linear_radius. apply Rplus_lt_compat_r.
    apply Rmult_lt_compat_r; lra.
  - intros angle Hn. rewrite Hrad by assumption.
    unfold linear_radius. rewrite t_of_0. do 2 f_equal. ring.
  - intros i angle ri Hi Hri. rewrite Hrad in Hri by lia. injection Hri as <-.
    pose proof (t_of_range self i Hi) as Ht. unfold linear_radius.
    split; nra.
Qed.

Lemma linear_radius_increasing_witness :
  linear four_linear /\ linear_offset four_linear < radius four_linear /\
  radius_at four_linear 3 0 = Ok (PyFloat (3 / 4 * (2 - 0) + 0)).
Proof.
  assert (Hl : linear four_linear) by reflexivity.
  assert (Hr : linear_offset four_linear < radius four_linear) by (cbn; lra).
  split; [exact Hl | split; [exact Hr |]].
  apply (proj1 (linear_radius_increasing four_linear Hl Hr) 3%Z 0).
  cbn. lia.
Defined.

(** ** The width *)

(** C7: at every index [i] of the loop the width is
    [outer_taper * (i / nr_points) + inner_taper * (1 - i / nr_points)];
    at [i = 0] it is [inner_taper]; and as [t = i / nr_points] tends to
    [1] inside [[0, 1)] the expression tends to [outer_taper], its value
    at [t = 1]. *)
Theorem width_interpolates (self : Curlicue) (i : Z) :
  (0 <= i < nr_points self)%Z ->
  let t := IZR i / IZR (nr_points self) in
  width_at self i = Ok (outer_taper self * t + inner_taper self * (1 - t)) /\
  width_at self 0 = Ok (inner_taper self) /\
  width_formula self t = outer_taper self * t + inner_taper self * (1 - t) /\
  width_formula self 1 = outer_taper self /\
  limit1_in (width_formula self) (fun t => 0 <= t < 1) (outer_taper self) 1 /\
  Rabs (width_formula self t - outer_taper self) =
    Rabs (inner_taper self - outer_taper self) * (1 - t).
Proof.
  intros Hi t.
  assert (Hn : (1 <= nr_points self)%Z) by lia.
  assert (Hz : IZR (nr_points self) <> 0) by now apply IZR_points_neq_0.
  assert (Ht : 0 <= t < 1) by now apply t_of_range.
  split; [| split; [| split; [reflexivity | split; [| split]]]].
  - rewrite width_at_ok by assumption. f_equal. unfold t. field. exact Hz.
  - rewrite width_at_ok by assumption. f_equal. field. exact Hz.
  - unfold width_formula. ring.
  - intros eps Heps. exists (eps / (Rabs (inner_taper self - outer_taper self) + 1)).
    pose proof (Rabs_pos (inner_taper self - outer_taper self)) as Hd.
    split; [apply Rdiv_lt_0_compat; lra |].
    intros x [_ Hx]. cbn in Hx |- *. unfold Rdist in Hx |- *.
    replace (width_formula self x - outer_taper self)
      with ((inner_taper self - outer_taper self) * (1 - x))
      by (unfold width_formula; ring).
    rewrite Rabs_mult. rewrite <- (Rabs_Ropp (1 - x)).
    replace (- (1 - x)) with (x - 1) by ring.
    apply Rmult_lt_compat_l with (r := Rabs (inner_taper self - outer_taper self) + 1) in Hx;
      [| lra].
    replace ((Rabs (inner_taper self - outer_taper self) + 1)
             * (eps / (Rabs (inner_taper self - outer_taper self) + 1)))
      with eps in Hx by (field; lra).
    pose proof (Rabs_pos (x - 1)). nra.
  - replace (width_formula self t - outer_taper self)
      with ((inner_taper self - outer_taper self) * (1 - t))
      by (unfold width_formula; ring).
    rewrite Rabs_mult. f_equal. apply Rabs_pos_eq. lra.
Qed.

Lemma width_interpolates_witness :
  (0 <= 3 < nr_points four_linear)%Z /\
  width_at four_linear 3 = Ok (0 * (3 / 4) + 2 / 10 * (1 - 3 / 4)).
Proof.
  assert (Hi : (0 <= 3 < nr_points four_linear)%Z) by (cbn; lia).
  split; [exact Hi |].
  exact (proj1 (width_interpolates four_linear 3 Hi)).
Defined.

(** ** The last sample of a logarithmic curve *)










(** ** Edge points *)

Lemma midpoint_eq (angle r : R) :
  midpoint angle r = (r * cos angle, r * sin angle, 0).
Proof.
  unfold midpoint. rewrite matvec_matmul by reflexivity.
  rewrite matvec_Translation, matvec_Rotation_Z.
  unfold vx, vy, vz. cbn [fst snd].
  apply f_equal2; [apply f_equal2 |]; ring.
Qed.

Lemma Forall2_In_right {A B : Type} (P : A -> B -> Prop) (l : list A) (l' : list B) :
  Forall2 P l l' -> forall b, In b l' -> exists a, In a l /\ P a b.
Proof.
  induction 1 as [| x y l l' Hxy _ IH]; intros b Hb; cbn in Hb; [contradiction |].
  destruct Hb as [<- | Hb].
  - exists x. split; [now left | exact Hxy].
  - destruct (IH b Hb) as (a & Ha & HP). exists a. split; [now right | exact HP].
Qed.

(** Every vertex of a completed run is one of the two points of a sample
    at an index of the loop. *)
Lemma generate_vertex_origin (self : Curlicue) (vs : list Vector) (fs : list Face)
      (v : Vector) :
  generate self = Ok (vs, fs) -> In v vs ->
  exists i pt1 pt2,
    (0 <= i < nr_points self)%Z /\ sample self i = Ok (pt1, pt2) /\
    (v = pt1 \/ v = pt2).
Proof.
  intros H Hv. apply generate_inv in H. destruct H as (pts & HF & -> & _).
  apply in_flat_map in Hv. destruct Hv as ([pt1 pt2] & Hp & Hv).
  destruct (Forall2_In_right _ _ _ HF _ Hp) as (i & Hi & E).
  exists i, pt1, pt2. split; [now apply range_In |]. split; [exact E |].
  cbn in Hv. intuition auto.
Qed.



(** ** Zero width *)




(** ** The matrix chain and the closed form *)



(** * Further properties of the loop and of [action_common] *)

(** ** What a power and a sample can come to *)



Lemma py_pow_zero_nonneg (y : R) :
  0 <= y -> exists w, py_pow 0 y = Ok (PyFloat w) /\ (w = 0 \/ w = 1).
Proof.
  intro Hy. unfold py_pow.
  destruct (Req_EM_T y 0); [exists 1; auto |].
  destruct (Req_EM_T 0 0) as [_ | N]; [| now elim N].
  destruct (Rlt_dec y 0); [lra | exists 0; auto].
Qed.

(** The sample of a logarithmic curve, by what the power comes to. *)
Lemma sample_log (self : Curlicue) (i : Z) :
  (1 <= nr_points self)%Z -> logarithmic self ->
  let angle := t_of self i * nr_turns self * 2 * PI in
  let w := width_formula self (t_of self i) in
  sample self i =
    match py_pow (radius_ratio self) (nr_turns self * (t_of self i - 1)) with
    | Ok (PyFloat p) =>
        Ok (((radius self * p - w / 2) * cos angle,
             (radius self * p - w / 2) * sin angle, 0),
            ((radius self * p + w / 2) * cos angle,
             (radius self * p + w / 2) * sin angle, 0))
    | Ok (PyComplex _ _) => Raise TypeError
    | Raise e => Raise e
    end.
Proof.
  intros Hn Hl angle w.
  pose proof (radius_at_log self i Hl) as Hr.
  destruct (py_pow (radius_ratio self) (nr_turns self * (t_of self i - 1)))
    as [[p | re im] | e] eqn:E; cbn [bind py_mul] in Hr.
  - exact (sample_float _ _ _ Hn Hr).
  - unfold sample. rewrite angle_at_ok by assumption. cbn [bind].
    fold (t_of self i). rewrite Hr. cbn [bind].
    now rewrite width_at_ok by assumption.
  - unfold sample. rewrite angle_at_ok by assumption. cbn [bind].
    fold (t_of self i). now rewrite Hr.
Qed.

Lemma recognized_dec (self : Curlicue) :
  linear self \/ logarithmic self \/ ~ recognized self.
Proof.
  unfold recognized, linear, logarithmic.
  destruct (string_dec (curve_type self) "linear") as [E | N]; [now left |].
  destruct (string_dec (curve_type self) "log") as [E | N']; [now right; left |].
  right; right. intros [H | H]; contradiction.
Qed.

Lemma linear_not_logarithmic (self : Curlicue) :
  linear self -> logarithmic self -> False.
Proof. unfold linear, logarithmic. intros -> H. discriminate H. Qed.


(** ** Which run raises, and what *)

Lemma range_nth_inv (n : Z) (k : nat) (i : Z) :
  nth_error (range n) k = Some i -> i = Z.of_nat k /\ (0 <= i < n)%Z.
Proof.
  intro H.
  assert (Hk : (k < List.length (range n))%nat).
  { apply nth_error_Some. now rewrite H. }
  rewrite range_length in Hk.
  assert (Hi : (0 <= Z.of_nat k < n)%Z) by lia.
  rewrite <- (Nat2Z.id k) in H. rewrite (range_nth _ _ Hi) in H.
  injection H as <-. split; [reflexivity | exact Hi].
Qed.

Lemma range_empty (n : Z) : (n <= 0)%Z -> range n = [].
Proof.
  intro H. unfold range. replace (Z.to_nat n) with 0%nat by lia. reflexivity.
Qed.

(** A loop raises what the first sample that raises does. *)
Lemma for_each_raise_iff (self : Curlicue) (l : list Z) :
  forall acc e,
    for_each (loop_body self) l acc = Raise e <->
    exists k i,
      nth_error l k = Some i /\ sample self i = Raise e /\
      forall k' j, (k' < k)%nat -> nth_error l k' = Some j ->
                   exists p, sample self j = Ok p.
Proof.
  induction l as [| i l IH]; intros [vs fs] e; cbn [for_each].
  - split; [discriminate |]. intros ([| k] & j & H & _); discriminate.
  - destruct (sample self i) as [p | e0] eqn:E.
    + rewrite (loop_body_ok _ _ _ _ _ E). cbn [bind]. rewrite IH. split.
      * intros (k & j & Hk & Hj & Hbefore). exists (S k), j.
        split; [exact Hk |]. split; [exact Hj |].
        intros [| k'] j' Hlt Hk'; cbn in Hk'.
        -- injection Hk' as <-. now exists p.
        -- apply (Hbefore k'); [lia | exact Hk'].
      * intros ([| k] & j & Hk & Hj & Hbefore); cbn in Hk.
        -- injection Hk as <-. rewrite E in Hj. discriminate.
        -- exists k, j. split; [exact Hk |]. split; [exact Hj |].
           intros k' j' Hlt Hk'. apply (Hbefore (S k')); [lia | exact Hk'].
    + rewrite (loop_body_raise _ _ _ _ E). cbn [bind]. split.
      * intro H. injection H as <-. exists 0%nat, i. split; [reflexivity |].
        split; [exact E |]. intros k' j Hlt. lia.
      * intros ([| k] & j & Hk & Hj & Hbefore); cbn in Hk.
        -- injection Hk as <-. rewrite E in Hj. now injection Hj as ->.
        -- destruct (Hbefore 0%nat i) as [p Hp]; [lia | reflexivity |].
           rewrite E in Hp. discriminate.
Qed.

(** X1: when [nr_points] is zero or negative the body of the loop never
    runs; whatever the other properties are, an unrecognized curve type
    included, the run yields no vertex and no face, and [action_common]
    hands this empty mesh to the host and returns [FINISHED]. *)
Theorem empty_run (self : Curlicue) :
  (nr_points self <= 0)%Z ->
  generate self = Ok ([], []) /\
  forall h, action_common self h = (Ok FINISHED, object_data_add h [] []).
Proof.
  intro Hn.
  assert (E : generate self = Ok ([], [])).
  { unfold generate. now rewrite range_empty. }
  split; [exact E |]. intro h. unfold action_common. now rewrite E.
Qed.

Lemma empty_run_witness :
  (nr_points no_points <= 0)%Z /\ ~ recognized no_points /\
  action_common no_points empty_host
    = (Ok FINISHED, object_data_add empty_host [] []).
Proof.
  assert (Hn : (nr_points no_points <= 0)%Z) by (cbn; lia).
  split; [exact Hn |]. split.
  - intros [H | H]; discriminate H.
  - exact (proj2 (empty_run no_points Hn) empty_host).
Defined.

(** The index at which a run raises. *)
Lemma generate_raise_iff (self : Curlicue) (e : exn) :
  generate self = Raise e <->
  exists i,
    (0 <= i < nr_points self)%Z /\ sample self i = Raise e /\
    forall j, (0 <= j < i)%Z -> exists p, sample self j = Ok p.
Proof.
  unfold generate. rewrite for_each_raise_iff. split.
  - intros (k & i & Hk & Hi & Hbefore).
    destruct (range_nth_inv _ _ _ Hk) as [-> Hr].
    exists (Z.of_nat k). split; [exact Hr |]. split; [exact Hi |].
    intros j Hj. apply (Hbefore (Z.to_nat j)); [lia |].
    apply range_nth. lia.
  - intros (i & Hr & Hi & Hbefore).
    exists (Z.to_nat i), i. split; [now apply range_nth |]. split; [exact Hi |].
    intros k' j Hlt Hk'. destruct (range_nth_inv _ _ _ Hk') as [-> Hj].
    apply Hbefore. lia.
Qed.

(** X2: a run raises an exception exactly when some index of the loop
    has a sample that raises it while every earlier index has a sample;
    so the exception of a run is the one of the first index that fails,
    and nothing of the earlier samples comes out. *)
Theorem first_failing_sample (self : Curlicue) (e : exn) :
  generate self = Raise e <->
  exists i,
    (0 <= i < nr_points self)%Z /\ sample self i = Raise e /\
    forall j, (0 <= j < i)%Z -> exists p, sample self j = Ok p.
Proof. exact (generate_raise_iff self e). Qed.

(** The second sample of [late_complex] is the first to raise. *)
Lemma sample_late_complex :
  (exists p, sample late_complex 0 = Ok p) /\
  sample late_complex 1 = Raise TypeError.
Proof.
  assert (Hn : (1 <= nr_points late_complex)%Z) by (cbn; lia).
  assert (Hl : logarithmic late_complex) by reflexivity.
  split.
  - pose proof (sample_log late_complex 0 Hn Hl) as H. cbv zeta in H.
    cbn [radius_ratio nr_turns late_complex] in H.
    assert (Hy : 1 * (t_of late_complex 0 - 1) = IZR (-1)).
    { unfold t_of. cbn [nr_points late_complex]. lra. }
    rewrite Hy in H. unfold py_pow in H.
    destruct (Req_EM_T (IZR (-1)) 0) as [E | _]; [lra |].
    destruct (Req_EM_T (- 1) 0) as [E | _]; [lra |].
    destruct (Rlt_dec (- 1) 0) as [_ | N]; [| lra].
    destruct (Req_EM_T (IZR (Int_part (IZR (-1)))) (IZR (-1))) as [_ | N].
    + eexists. exact H.
    + elim N. f_equal. symmetry. apply Int_part_spec. lra.
  - rewrite (sample_log late_complex 1 Hn Hl). 
    cbn [radius_ratio nr_turns late_complex].
    assert (Hy : 1 * (t_of late_complex 1 - 1) = - (1 / 2)).
    { unfold t_of. cbn [nr_points late_complex]. lra. }
    rewrite Hy. unfold py_pow.
    destruct (Req_EM_T (- (1 / 2)) 0) as [E | _]; [lra |].
    destruct (Req_EM_T (- 1) 0) as [E | _]; [lra |].
    destruct (Rlt_dec (- 1) 0) as [_ | N]; [| lra].
    destruct (Req_EM_T (IZR (Int_part (- (1 / 2)))) (- (1 / 2))) as [E | _].
    + exfalso. revert E. apply half_not_integer. lra.
    + reflexivity.
Qed.

Lemma first_failing_sample_witness : generate late_complex = Raise TypeError.
Proof.
  apply (proj2 (first_failing_sample late_complex TypeError)).
  exists 1%Z. split; [cbn; lia |]. split; [exact (proj2 sample_late_complex) |].
  intros j Hj. replace j with 0%Z by lia. exact (proj1 sample_late_complex).
Defined.

Lemma generate_total_in_range (self : Curlicue) :
  (forall i, (0 <= i < nr_points self)%Z -> exists p, sample self i = Ok p) ->
  exists vs fs, generate self = Ok (vs, fs).
Proof.
  intro H.
  destruct (for_each_total self (range (nr_points self)))
    with (acc := ([] : list Vector, [] : list Face)) as [[vs fs] E].
  - apply Forall_forall. intros i Hi. apply H. now apply range_In.
  - now exists vs, fs.
Qed.

(** A run either completes or raises. *)
Lemma generate_cases (self : Curlicue) :
  (exists vs fs, generate self = Ok (vs, fs)) \/ (exists e, generate self = Raise e).
Proof.
  destruct (generate self) as [[vs fs] | e]; [left; now exists vs, fs | right; now exists e].
Qed.




(** ** More on the strip *)

Lemma quad_NoDup (k : Z) : NoDup (quad k).
Proof.
  unfold quad. repeat constructor; cbn [In]; lia.
Qed.

Lemma quad_inj (k k' : Z) : quad k = quad k' -> k = k'.
Proof.
  unfold quad. intro H. apply (f_equal (fun l => hd 0%Z l)) in H.
  cbn [hd] in H. lia.
Qed.

(** The faces of a completed run, looked up by position. *)
Lemma generate_faces_inv (self : Curlicue) (vs : list Vector) (fs : list Face)
      (k : nat) (f : Face) :
  generate self = Ok (vs, fs) ->
  nth_error fs k = Some f ->
  (Z.of_nat k < nr_points self - 1)%Z /\ f = quad (Z.of_nat k).
Proof.
  intros E Hf. destruct (generate_counts _ _ _ E) as [_ Hlen].
  assert (Hlt : (k < List.length fs)%nat).
  { apply nth_error_Some. now rewrite Hf. }
  unfold len in Hlen.
  assert (Hk : (0 <= Z.of_nat k < nr_points self - 1)%Z) by lia.
  split; [lia |].
  pose proof (generate_faces _ _ _ _ E Hk) as H. rewrite Nat2Z.id in H.
  rewrite H in Hf. now injection Hf as <-.
Qed.

(** X5: in the mesh of a completed run every face is a quad of four
    different indices and no face occurs twice; face [k] only uses
    vertices of the samples [k] and [k + 1], so a vertex is used by at
    most the two faces next to its sample; and from two points on every
    vertex is used by some face (with a single point the two vertices
    are used by none). *)
Theorem strip_uses_every_vertex (self : Curlicue) (vs : list Vector) (fs : list Face) :
  generate self = Ok (vs, fs) ->
  (forall f, In f fs -> List.length f = 4%nat /\ NoDup f) /\
  NoDup fs /\
  (forall k f j, nth_error fs k = Some f -> In j f ->
     (j / 2 = Z.of_nat k \/ j / 2 = Z.of_nat k + 1)%Z) /\
  ((2 <= nr_points self)%Z ->
   forall j, (0 <= j < len vs)%Z -> exists f, In f fs /\ In j f) /\
  (nr_points self = 1%Z -> len vs = 2%Z /\ fs = []).
Proof.
  intro E. destruct (generate_counts _ _ _ E) as [Hv Hf].
  split; [| split; [| split; [| split]]].
  - intros f Hin. apply In_nth_error in Hin. destruct Hin as [k Hk].
    destruct (generate_faces_inv _ _ _ _ _ E Hk) as [_ ->].
    split; [reflexivity | apply quad_NoDup].
  - apply NoDup_nth_error. intros a b Ha Hab.
    destruct (nth_error fs a) as [f |] eqn:Efa.
    + destruct (generate_faces_inv _ _ _ _ _ E Efa) as [_ ->].
      symmetry in Hab.
      destruct (generate_faces_inv _ _ _ _ _ E Hab) as [_ Hq].
      apply quad_inj in Hq. lia.
    + apply nth_error_None in Efa. lia.
  - intros k f j Hk Hj.
    destruct (generate_faces_inv _ _ _ _ _ E Hk) as [_ ->].
    apply in_quad in Hj.
    destruct Hj as [-> | [-> | [-> | ->]]].
    + left. replace (2 * Z.of_nat k)%Z with (Z.of_nat k * 2)%Z by lia.
      apply Z.div_mul. lia.
    + left. symmetry. apply (Z.div_unique _ _ _ 1); lia.
    + right. symmetry. apply (Z.div_unique _ _ _ 1); lia.
    + right. symmetry. apply (Z.div_unique _ _ _ 0); lia.
  - intros Hn j Hj.
    assert (Hs : (0 <= j / 2)%Z) by (apply Z.div_pos; lia).
    assert (Hm : (0 <= j mod 2 < 2)%Z) by (apply Z.mod_pos_bound; lia).
    pose proof (Z.div_mod j 2 ltac:(lia)) as Hdm.
    destruct (Z_lt_le_dec (j / 2) (nr_points self - 1)) as [Hlt | Hge].
    + exists (quad (j / 2)). split.
      * apply (nth_error_In _ (Z.to_nat (j / 2))).
        apply (generate_faces _ _ _ _ E). lia.
      * apply in_quad. lia.
    + exists (quad (nr_points self - 2)). split.
      * apply (nth_error_In _ (Z.to_nat (nr_points self - 2))).
        apply (generate_faces _ _ _ _ E). lia.
      * apply in_quad. lia.
  - intro H1. split; [lia |]. destruct fs as [| f fs]; [reflexivity |].
    unfold len in Hf. cbn [List.length] in Hf. lia.
Qed.

Lemma strip_uses_every_vertex_witness :
  exists vs fs,
    generate four_linear = Ok (vs, fs) /\ NoDup fs /\
    exists f, In f fs /\ In 7%Z f.
Proof.
  destruct (generate_total four_linear) as (vs & fs & E);
    [cbn; lia | left; reflexivity |].
  exists vs, fs. split; [exact E |].
  destruct (strip_uses_every_vertex four_linear vs fs E) as (_ & Hnd & _ & Hall & _).
  split; [exact Hnd |]. apply Hall; [cbn; lia |].
  destruct (generate_counts _ _ _ E) as [Hv _]. rewrite Hv. cbn. lia.
Defined.

(** ** More on the geometry of a sample *)

Lemma norm_polar (a angle : R) : norm (a * cos angle, a * sin angle, 0) = Rabs a.
Proof.
  unfold norm, vx, vy, vz. cbn [fst snd].
  replace (Rsqr (a * cos angle) + Rsqr (a * sin angle) + Rsqr 0)
    with (Rsqr a * (Rsqr (sin angle) + Rsqr (cos angle)))
    by (unfold Rsqr; ring).
  rewrite sin2_cos2, Rmult_1_r. apply sqrt_Rsqr_abs.
Qed.

(** X6: the cross-section of the ribbon at a sample is radial.  The
    midpoint is halfway between the two points, the step from the first
    to the second is [width] times the unit vector of the sample's
    angle, so both lie on the line from the origin through the midpoint,
    at distances [|r - width/2|] and [|r + width/2|]; with a radius and
    a width that are not negative the first point is the one nearer to
    the origin. *)
Theorem radial_cross_section (self : Curlicue) (i : Z) (pt1 pt2 : Vector) :
  (0 <= i < nr_points self)%Z ->
  sample self i = Ok (pt1, pt2) ->
  exists angle r w,
    angle_at self i = Ok angle /\
    radius_at self i angle = Ok (PyFloat r) /\
    width_at self i = Ok w /\
    midpoint angle r = ((vx pt1 + vx pt2) / 2, (vy pt1 + vy pt2) / 2, (vz pt1 + vz pt2) / 2) /\
    vx pt2 - vx pt1 = w * cos angle /\
    vy pt2 - vy pt1 = w * sin angle /\
    vx pt1 * vy pt2 - vy pt1 * vx pt2 = 0 /\
    norm pt1 = Rabs (r - w / 2) /\
    norm pt2 = Rabs (r + w / 2) /\
    (0 <= r -> 0 <= w -> norm pt1 <= norm pt2).
Proof.
  intros Hi E.
  assert (Hn : (1 <= nr_points self)%Z) by lia.
  destruct (sample_inv _ _ _ Hn E) as (r & Er & Hp). cbv zeta in Hp.
  injection Hp as -> ->.
  exists (t_of self i * nr_turns self * 2 * PI), r, (width_formula self (t_of self i)).
  split; [now apply angle_at_ok |]. split; [exact Er |].
  split.
  { rewrite width_at_ok by assumption. f_equal. unfold width_formula, t_of.
    field. now apply IZR_points_neq_0. }
  rewrite midpoint_eq, !norm_polar. unfold vx, vy, vz. cbn [fst snd].
  split; [apply f_equal2; [apply f_equal2 |]; field |].
  split; [field |]. split; [field |]. split; [ring |].
  split; [reflexivity |]. split; [reflexivity |].
  intros Hr Hw. unfold Rabs.
  destruct (Rcase_abs (r - width_formula self (t_of self i) / 2));
    destruct (Rcase_abs (r + width_formula self (t_of self i) / 2)); lra.
Qed.

Lemma radial_cross_section_witness :
  (0 <= 3 < nr_points four_linear)%Z /\
  exists pt1 pt2,
    sample four_linear 3 = Ok (pt1, pt2) /\
    vx pt1 * vy pt2 - vy pt1 * vx pt2 = 0.
Proof.
  assert (Hi : (0 <= 3 < nr_points four_linear)%Z) by (cbn; lia).
  split; [exact Hi |].
  destruct (sample_defined four_linear 3) as ([pt1 pt2] & E);
    [cbn; lia | left; reflexivity |].
  exists pt1, pt2. split; [exact E |].
  destruct (radial_cross_section four_linear 3 pt1 pt2 Hi E)
    as (angle & r & w & _ & _ & _ & _ & _ & _ & H & _).
  exact H.
Defined.

(** ** Degenerate and extreme parameters *)

(** X7: with [nr_turns = 0] and at least one point, a run on a
    recognized curve completes whatever the ratio is, zero and negative
    ratios included, since every power is [ratio ** 0.0]; every sample of
    a logarithmic curve then has exactly the radius [radius]; and every
    vertex lies on the X axis. *)
Theorem no_turns_run (self : Curlicue) :
  nr_turns self = 0 -> (1 <= nr_points self)%Z -> recognized self ->
  (logarithmic self ->
   forall i, radius_at self i (t_of self i * nr_turns self * 2 * PI)
             = Ok (PyFloat (radius self))) /\
  exists vs fs,
    generate self = Ok (vs, fs) /\
    forall v, In v vs -> vy v = 0 /\ vz v = 0.
Proof.
  intros Ht Hn Hrec.
  assert (Hlog : logarithmic self ->
            forall i, radius_at self i (t_of self i * nr_turns self * 2 * PI)
                      = Ok (PyFloat (radius self))).
  { intros Hl i. rewrite radius_at_log by assumption. rewrite Ht.
    replace (0 * (t_of self i - 1)) with 0 by ring.
    rewrite py_pow_zero_exponent. cbn [bind py_mul]. now rewrite Rmult_1_r. }
  split; [exact Hlog |].
  assert (Hs : forall i, exists p, sample self i = Ok p).
  { intro i. destruct Hrec as [Hl | Hl].
    - apply sample_defined; [assumption | now left].
    - eexists. exact (sample_float _ _ _ Hn (Hlog Hl i)). }
  destruct (generate_total_in_range self) as (vs & fs & E);
    [intros i _; apply Hs |].
  exists vs, fs. split; [exact E |]. intros v Hv.
  destruct (generate_vertex_origin _ _ _ _ E Hv) as (i & pt1 & pt2 & _ & Ei & Hor).
  destruct (sample_inv _ _ _ Hn Ei) as (r & _ & Hp). cbv zeta in Hp.
  rewrite Ht in Hp.
  replace (t_of self i * 0 * 2 * PI) with 0 in Hp by ring.
  rewrite sin_0 in Hp. injection Hp as -> ->.
  destruct Hor as [-> | ->]; unfold vy, vz; cbn [fst snd]; split; ring.
Qed.

Lemma no_turns_run_witness :
  nr_turns no_turns = 0 /\ (1 <= nr_points no_turns)%Z /\ recognized no_turns /\
  radius_ratio no_turns < 0 /\
  exists vs fs, generate no_turns = Ok (vs, fs).
Proof.
  assert (Ht : nr_turns no_turns = 0) by reflexivity.
  assert (Hn : (1 <= nr_points no_turns)%Z) by (cbn; lia).
  assert (Hr : recognized no_turns) by (right; reflexivity).
  split; [exact Ht | split; [exact Hn | split; [exact Hr | split; [cbn; lra |]]]].
  destruct (proj2 (no_turns_run no_turns Ht Hn Hr)) as (vs & fs & E & _).
  now exists vs, fs.
Defined.

(** X8: within the enforced bounds, every vertex of a linear spiral
    lies within [max(radius, linear_offset) + max(inner_taper,
    outer_taper) / 2] of the origin. *)
Theorem linear_extent (self : Curlicue) :
  linear self -> enforced self ->
  exists vs fs,
    generate self = Ok (vs, fs) /\
    forall v, In v vs ->
      norm v <= Rmax (radius self) (linear_offset self)
                + Rmax (inner_taper self) (outer_taper self) / 2.
Proof.
  intros Hl (Hn & Hrad & Hin & Hout & Hoff & _ & _).
  destruct (generate_total self Hn (or_introl Hl)) as (vs & fs & E).
  exists vs, fs. split; [exact E |]. intros v Hv.
  destruct (generate_vertex_origin _ _ _ _ E Hv) as (i & pt1 & pt2 & Hi & Ei & Hor).
  destruct (sample_inv _ _ _ Hn Ei) as (r & Er & Hp). cbv zeta in Hp.
  rewrite radius_at_linear in Er by assumption. injection Er as <-.
  pose proof (t_of_range self i Hi) as Ht.
  set (t := t_of self i) in *.
  pose proof (Rmax_l (radius self) (linear_offset self)) as M1.
  pose proof (Rmax_r (radius self) (linear_offset self)) as M2.
  pose proof (Rmax_l (inner_taper self) (outer_taper self)) as M3.
  pose proof (Rmax_r (inner_taper self) (outer_taper self)) as M4.
  assert (Hr : 0 <= linear_radius self t <= Rmax (radius self) (linear_offset self)).
  { unfold linear_radius. split; nra. }
  assert (Hw : 0 <= width_formula self t <= Rmax (inner_taper self) (outer_taper self)).
  { unfold width_formula. split; nra. }
  injection Hp as -> ->.
  destruct Hor as [-> | ->]; rewrite norm_polar; unfold Rabs;
    match goal with |- context [Rcase_abs ?x] => destruct (Rcase_abs x) end; lra.
Qed.

Lemma linear_extent_witness :
  linear inward_linear /\ enforced inward_linear /\
  exists vs fs,
    generate inward_linear = Ok (vs, fs) /\
    forall v, In v vs -> norm v <= Rmax 1 3 + Rmax (2 / 10) (1 / 10) / 2.
Proof.
  assert (Hl : linear inward_linear) by reflexivity.
  assert (He : enforced inward_linear).
  { unfold enforced, recognized, linear. cbn.
    repeat split; try lia; try lra. now left. }
  split; [exact Hl | split; [exact He |]].
  exact (linear_extent inward_linear Hl He).
Defined.

(** ** How radius and width progress *)

Lemma t_of_succ (self : Curlicue) (i : Z) :
  (1 <= nr_points self)%Z ->
  t_of self (i + 1) = t_of self i + 1 / IZR (nr_points self).
Proof.
  intro Hn. unfold t_of. rewrite plus_IZR. field. now apply IZR_points_neq_0.
Qed.

(** X9: on a linear curve the radius grows by the same amount,
    [(radius - linear_offset) / nr_points], from each sample to the
    next; so it shrinks when the offset exceeds the radius and stays put
    when the two are equal. *)
Theorem linear_radius_step (self : Curlicue) (i : Z) (a b ri rj : R) :
  linear self -> (1 <= nr_points self)%Z ->
  radius_at self i a = Ok (PyFloat ri) ->
  radius_at self (i + 1) b = Ok (PyFloat rj) ->
  rj - ri = (radius self - linear_offset self) / IZR (nr_points self) /\
  (radius self < linear_offset self -> rj < ri) /\
  (radius self = linear_offset self -> rj = ri /\ ri = radius self).
Proof.
  intros Hl Hn Hi Hj.
  rewrite radius_at_linear in Hi by assumption. injection Hi as <-.
  rewrite radius_at_linear in Hj by assumption. injection Hj as <-.
  rewrite t_of_succ by assumption. unfold linear_radius.
  pose proof (IZR_points_pos self Hn) as Hp.
  assert (Hinv : 0 < 1 / IZR (nr_points self)).
  { apply Rdiv_lt_0_compat; lra. }
  split; [field; lra |]. split.
  - intro H. nra.
  - intro H. rewrite H. split; ring.
Qed.

Lemma linear_radius_step_witness :
  linear inward_linear /\ (1 <= nr_points inward_linear)%Z /\
  exists ri rj,
    radius_at inward_linear 1 0 = Ok (PyFloat ri) /\
    radius_at inward_linear (1 + 1) 0 = Ok (PyFloat rj) /\
    rj < ri.
Proof.
  assert (Hl : linear inward_linear) by reflexivity.
  assert (Hn : (1 <= nr_points inward_linear)%Z) by (cbn; lia).
  split; [exact Hl | split; [exact Hn |]].
  exists (linear_radius inward_linear (t_of inward_linear 1)),
         (linear_radius inward_linear (t_of inward_linear (1 + 1))).
  pose proof (radius_at_linear inward_linear 1 0 Hn Hl) as H1.
  pose proof (radius_at_linear inward_linear (1 + 1) 0 Hn Hl) as H2.
  split; [exact H1 | split; [exact H2 |]].
  apply (linear_radius_step inward_linear 1 0 0 _ _ Hl Hn H1 H2).
  cbn. lra.
Defined.






(** X12: at every index of the loop the width lies between the two
    tapers, so it is never negative when they are not, and it changes by
    the same amount, [(outer_taper - inner_taper) / nr_points], from
    each sample to the next. *)
Theorem width_progress (self : Curlicue) (i : Z) :
  (0 <= i < nr_points self)%Z ->
  exists w,
    width_at self i = Ok w /\
    Rmin (inner_taper self) (outer_taper self) <= w
      <= Rmax (inner_taper self) (outer_taper self) /\
    (0 <= inner_taper self -> 0 <= outer_taper self -> 0 <= w) /\
    forall w', width_at self (i + 1) = Ok w' ->
               w' - w = (outer_taper self - inner_taper self) / IZR (nr_points self).
Proof.
  intro Hi. assert (Hn : (1 <= nr_points self)%Z) by lia.
  pose proof (IZR_points_neq_0 self Hn) as Hz.
  pose proof (t_of_range self i Hi) as Ht.
  exists (width_formula self (t_of self i)).
  assert (Hw : forall k, width_at self k = Ok (width_formula self (t_of self k))).
  { intro k. rewrite width_at_ok by assumption. f_equal.
    unfold width_formula, t_of. field. exact Hz. }
  split; [apply Hw |].
  pose proof (Rmin_l (inner_taper self) (outer_taper self)) as M1.
  pose proof (Rmin_r (inner_taper self) (outer_taper self)) as M2.
  pose proof (Rmax_l (inner_taper self) (outer_taper self)) as M3.
  pose proof (Rmax_r (inner_taper self) (outer_taper self)) as M4.
  split; [unfold width_formula; split; nra |].
  split; [intros; unfold width_formula; nra |].
  intros w' H'. rewrite Hw in H'. injection H' as <-.
  rewrite t_of_succ by assumption. unfold width_formula. field. exact Hz.
Qed.

Lemma width_progress_witness :
  (0 <= 1 < nr_points four_linear)%Z /\
  exists w, width_at four_linear 1 = Ok w /\ 0 <= w <= 2 / 10.
Proof.
  assert (Hi : (0 <= 1 < nr_points four_linear)%Z) by (cbn; lia).
  split; [exact Hi |].
  destruct (width_progress four_linear 1 Hi) as (w & Hw & Hb & _).
  exists w. split; [exact Hw |].
  cbn [inner_taper outer_taper four_linear] in Hb.
  unfold Rmin, Rmax in Hb.
  destruct (Rle_dec (2 / 10) 0) as [L | _]; [lra |]. exact Hb.
Defined.

(** ** What the size parameters cannot change *)

Lemma same_shape_sym (self other : Curlicue) :
  same_shape self other -> same_shape other self.
Proof. intros (H1 & H2 & H3 & H4). repeat split; now symmetry. Qed.

Lemma same_shape_t_of (self other : Curlicue) (i : Z) :
  same_shape self other -> t_of self i = t_of other i.
Proof. intros (_ & H & _). unfold t_of. now rewrite H. Qed.

Lemma sample_raise_same_shape (self other : Curlicue) (i : Z) (e : exn) :
  same_shape self other -> (1 <= nr_points self)%Z ->
  sample self i = Raise e -> sample other i = Raise e.
Proof.
  intros Hs Hn He. pose proof Hs as (Hc & Hp & Ht & Hr).
  assert (Hn' : (1 <= nr_points other)%Z) by lia.
  destruct (recognized_dec self) as [Hl | [Hl | Hu]].
  - destruct (sample_defined self i Hn (or_introl Hl)) as [p Hp'].
    rewrite Hp' in He. discriminate.
  - assert (Hl' : logarithmic other) by (unfold logarithmic in *; congruence).
    rewrite (sample_log self i Hn Hl) in He.
    rewrite (sample_log other i Hn' Hl').
    rewrite <- Hr, <- Ht, <- (same_shape_t_of _ _ i Hs).
    destruct (py_pow (radius_ratio self) (nr_turns self * (t_of self i - 1)))
      as [[p | re im] | e0]; [discriminate | exact He | exact He].
  - rewrite sample_unrecognized in He by assumption. injection He as <-.
    apply sample_unrecognized; [assumption |].
    unfold recognized, linear, logarithmic in *. now rewrite <- Hc.
Qed.

Lemma sample_ok_same_shape (self other : Curlicue) (i : Z) :
  same_shape self other -> (1 <= nr_points self)%Z ->
  (exists p, sample self i = Ok p) -> exists p, sample other i = Ok p.
Proof.
  intros Hs Hn [p Hp].
  destruct (sample other i) as [q | e] eqn:E; [now exists q |].
  apply (sample_raise_same_shape other self) in E.
  - rewrite Hp in E. discriminate.
  - now apply same_shape_sym.
  - destruct Hs as (_ & H & _). lia.
Qed.

Lemma generate_raise_same_shape (self other : Curlicue) (e : exn) :
  same_shape self other -> generate self = Raise e -> generate other = Raise e.
Proof.
  intros Hs He. apply generate_raise_iff in He.
  destruct He as (i & Hi & Hsi & Hbefore).
  assert (Hn : (1 <= nr_points self)%Z) by lia.
  apply generate_raise_iff. exists i.
  pose proof Hs as (_ & Hp & _).
  split; [lia |]. split; [now apply (sample_raise_same_shape self) |].
  intros j Hj. apply (sample_ok_same_shape self); [assumption .. |].
  now apply Hbefore.
Qed.

(** X13: whether a run completes, and which exception it raises when it
    does not, depends only on [curve_type], [nr_points], [nr_turns] and
    [radius_ratio]: two parameter sets that agree on these four raise the
    same exceptions, complete together, and then have the same faces and
    as many vertices.  The radius, the tapers (a zero width included)
    and the offset never cause or cure a fault. *)
Theorem sizes_do_not_change_the_outcome (self other : Curlicue) :
  same_shape self other ->
  (forall e, generate self = Raise e <-> generate other = Raise e) /\
  ((exists vs fs, generate self = Ok (vs, fs)) <->
   (exists vs fs, generate other = Ok (vs, fs))) /\
  (forall vs fs vs' fs',
     generate self = Ok (vs, fs) -> generate other = Ok (vs', fs') ->
     fs = fs' /\ len vs = len vs').
Proof.
  intro Hs. pose proof (same_shape_sym _ _ Hs) as Hs'.
  assert (Hraise : forall e, generate self = Raise e <-> generate other = Raise e).
  { intro e. split; now apply generate_raise_same_shape. }
  split; [exact Hraise |]. split.
  - split; intros (vs & fs & E).
    + destruct (generate_cases other) as [H | [e He]]; [exact H |].
      apply Hraise in He. rewrite E in He. discriminate.
    + destruct (generate_cases self) as [H | [e He]]; [exact H |].
      apply Hraise in He. rewrite E in He. discriminate.
  - intros vs fs vs' fs' E E'.
    destruct (generate_counts _ _ _ E) as [Hv _].
    destruct (generate_counts _ _ _ E') as [Hv' _].
    apply generate_inv in E. destruct E as (_ & _ & _ & ->).
    apply generate_inv in E'. destruct E' as (_ & _ & _ & ->).
    destruct Hs as (_ & Hp & _). rewrite Hp in *. split; [reflexivity | lia].
Qed.

Lemma sizes_do_not_change_the_outcome_witness :
  same_shape zero_ratio zero_ratio_resized /\
  generate zero_ratio_resized = Raise ZeroDivisionError.
Proof.
  assert (Hs : same_shape zero_ratio zero_ratio_resized).
  { unfold same_shape. cbn. repeat split. }
  split; [exact Hs |].
  apply (proj1 (proj1 (sizes_do_not_change_the_outcome _ _ Hs) ZeroDivisionError)).
  apply generate_zero_ratio; cbn; try reflexivity; try lia; lra.
Defined.

(** * The decorator [props_compat] *)

(** ** Dictionaries and sorted names *)

Lemma lookup_Some_In (name : string) (d : list (string * Compat.pyvalue)) v :
  Compat.lookup name d = Some v -> In name (map fst d).
Proof.
  induction d as [| [k w] d IH]; cbn; [discriminate |].
  destruct (String.eqb_spec k name) as [-> | _]; [now left | right; auto].
Qed.

Lemma lookup_None_iff (name : string) (d : list (string * Compat.pyvalue)) :
  Compat.lookup name d = None <-> ~ In name (map fst d).
Proof.
  induction d as [| [k w] d IH]; cbn; [tauto |].
  destruct (String.eqb_spec k name) as [-> | N].
  - split; [discriminate | intro H; elim H; now left].
  - rewrite IH. tauto.
Qed.

Lemma lookup_remove (name key : string) (d : list (string * Compat.pyvalue)) :
  Compat.lookup name (Compat.remove key d) =
    if (name =? key)%string then None else Compat.lookup name d.
Proof.
  unfold Compat.remove.
  induction d as [| [k w] d IH]; cbn [filter Compat.lookup fst].
  - now destruct (name =? key)%string.
  - destruct (String.eqb_spec k key) as [-> | Nk]; cbn [negb Compat.lookup].
    + rewrite IH. destruct (String.eqb_spec name key) as [-> | Nn]; [reflexivity |].
      destruct (String.eqb_spec key name) as [E | _]; [now elim Nn | reflexivity].
    + rewrite IH. destruct (String.eqb_spec k name) as [-> | _]; [| reflexivity].
      destruct (String.eqb_spec name key) as [E | _]; [now elim Nk | reflexivity].
Qed.

Lemma lookup_setitem (name key : string) (d : list (string * Compat.pyvalue)) v :
  Compat.lookup name (Compat.setitem d key v) =
    if (name =? key)%string then Some v else Compat.lookup name d.
Proof.
  induction d as [| [k w] d IH]; cbn.
  - rewrite String.eqb_sym. reflexivity.
  - destruct (String.eqb_spec k key) as [-> | Nk]; cbn.
    + destruct (String.eqb_spec key name) as [-> | Nn].
      * now rewrite String.eqb_refl.
      * destruct (String.eqb_spec name key) as [E | _]; [now elim Nn | reflexivity].
    + rewrite IH. destruct (String.eqb_spec k name) as [-> | _]; [| reflexivity].
      destruct (String.eqb_spec name key) as [E | _]; [now elim Nk | reflexivity].
Qed.

(** Updating with a list of distinct keys: the new value where there is
    one, the old one elsewhere. *)
Lemma lookup_update (name : string) (items : list (string * Compat.pyvalue)) :
  NoDup (map fst items) ->
  forall d,
    Compat.lookup name (Compat.update d items) =
      match Compat.lookup name items with
      | Some v => Some v
      | None => Compat.lookup name d
      end.
Proof.
  unfold Compat.update.
  induction items as [| [k v] items IH]; intros Hnd d; cbn; [reflexivity |].
  inversion Hnd as [| ? ? Hk Hnd']; subst.
  rewrite IH by assumption. rewrite lookup_setitem.
  destruct (String.eqb_spec k name) as [-> | N].
  - rewrite String.eqb_refl.
    destruct (Compat.lookup name items) as [w |] eqn:E; [| reflexivity].
    apply lookup_Some_In in E. contradiction.
  - destruct (String.eqb_spec name k) as [E | _]; [now elim N | reflexivity].
Qed.

(** A list of pairs with distinct keys is its own dictionary. *)
Lemma update_fresh (items : list (string * Compat.pyvalue)) :
  forall d, NoDup (map fst (d ++ items)) -> Compat.update d items = d ++ items.
Proof.
  unfold Compat.update.
  induction items as [| [k v] items IH]; intros d Hnd; cbn; [now rewrite app_nil_r |].
  assert (Hset : Compat.setitem d k v = d ++ [(k, v)]).
  { assert (Hk : ~ In k (map fst d)).
    { rewrite map_app in Hnd. cbn in Hnd. apply NoDup_remove_2 in Hnd.
      intro H. apply Hnd. apply in_or_app. now left. }
    clear -Hk. induction d as [| [k' w] d IHd]; cbn; [reflexivity |].
    destruct (String.eqb_spec k' k) as [-> | _].
    - elim Hk. now left.
    - f_equal. apply IHd. intro H. apply Hk. now right. }
  rewrite Hset. rewrite IH; rewrite <- app_assoc; [reflexivity | exact Hnd].
Qed.

Lemma dict_distinct (props : list (string * Compat.pyvalue)) :
  NoDup (map fst props) -> Compat.dict props = props.
Proof. intro H. unfold Compat.dict. now rewrite update_fresh. Qed.

Lemma In_insert_sorted (x name : string) (l : list string) :
  In x (Compat.insert_sorted name l) <-> x = name \/ In x l.
Proof.
  induction l as [| y l IH]; cbn.
  - intuition auto.
  - destruct (String.leb name y); cbn; [intuition auto |].
    rewrite IH. intuition auto.
Qed.

Lemma In_sorted (x : string) (l : list string) : In x (Compat.sorted l) <-> In x l.
Proof.
  induction l as [| y l IH]; cbn; [tauto |].
  rewrite In_insert_sorted, IH. intuition auto.
Qed.

Lemma NoDup_insert_sorted (name : string) (l : list string) :
  ~ In name l -> NoDup l -> NoDup (Compat.insert_sorted name l).
Proof.
  induction l as [| y l IH]; intros Hn Hnd; cbn.
  - constructor; [tauto | constructor].
  - destruct (String.leb name y).
    + now constructor.
    + inversion Hnd as [| ? ? Hy Hnd']; subst. constructor.
      * rewrite In_insert_sorted. intros [-> | H]; [apply Hn; now left | contradiction].
      * apply IH; [intro H; apply Hn; now right | assumption].
Qed.

Lemma NoDup_sorted (l : list string) : NoDup l -> NoDup (Compat.sorted l).
Proof.
  induction 1 as [| x l Hx Hnd IH]; cbn; [constructor |].
  apply NoDup_insert_sorted; [now rewrite In_sorted | assumption].
Qed.

(** [dir] lists exactly the names [getattr] finds, each once. *)
Lemma dir_getattr (cllass : Compat.pyclass) (name : string) :
  In name (Compat.dir cllass) <-> Compat.getattr cllass name <> None.
Proof.
  unfold Compat.dir, Compat.getattr. rewrite In_sorted, nodup_In, in_app_iff.
  destruct (Compat.lookup name (Compat.own cllass)) as [v |] eqn:E.
  - apply lookup_Some_In in E. split; [discriminate | now left].
  - apply lookup_None_iff in E. rewrite lookup_None_iff. tauto.
Qed.

Lemma dir_NoDup (cllass : Compat.pyclass) : NoDup (Compat.dir cllass).
Proof. apply NoDup_sorted, NoDup_nodup. Qed.

(** ** The three steps of the decorator *)

Lemma in_prop_funcs_raise (bpy_props : list string) (v : Compat.pyvalue) e :
  Compat.in_prop_funcs bpy_props v = Compat.Raise e -> e = Compat.TypeError.
Proof.
  unfold Compat.in_prop_funcs. destruct (Compat.hashable v); [discriminate |].
  intro H. now injection H as <-.
Qed.

Lemma is_definition_raise (bpy_props : list string) (prop : Compat.pyvalue) e :
  Compat.is_definition bpy_props prop = Compat.Raise e -> e = Compat.TypeError.
Proof.
  destruct prop as [n | items | items | h]; cbn; try discriminate.
  destruct items as [| head [| x [| y rest]]]; try discriminate.
  apply in_prop_funcs_raise.
Qed.

(** What [props] holds when the list could be built. *)
Lemma collect_inv (bpy_props : list string) (cllass : Compat.pyclass) (names : list string) :
  forall props,
    Compat.collect bpy_props cllass names = Compat.Ok props ->
    map fst props = filter (Compat.defines bpy_props cllass) names /\
    (forall name prop, In (name, prop) props -> Compat.getattr cllass name = Some prop) /\
    (forall name prop, In name names -> Compat.getattr cllass name = Some prop ->
                       Compat.is_definition bpy_props prop <> Compat.Raise Compat.TypeError).
Proof.
  induction names as [| name names IH]; intros props H; cbn in H.
  - injection H as <-. cbn. repeat split; intros; contradiction.
  - destruct (Compat.getattr cllass name) as [prop |] eqn:Eg; [| discriminate].
    destruct (Compat.is_definition bpy_props prop) as [keep | e] eqn:Ed; [| discriminate].
    destruct (Compat.collect bpy_props cllass names) as [ps | e]; [| discriminate].
    injection H as <-. destruct (IH ps eq_refl) as (Hk & Hg & Ht).
    assert (Hdef : Compat.defines bpy_props cllass name = keep).
    { unfold Compat.defines. now rewrite Eg, Ed. }
    split; [| split].
    + cbn [filter]. rewrite Hdef. destruct keep; cbn; now rewrite Hk.
    + intros n p Hin. destruct keep; [destruct Hin as [Hin | Hin] |]; auto.
      injection Hin as <- <-. exact Eg.
    + intros n p [<- | Hin] Hn.
      * rewrite Eg in Hn. injection Hn as <-. rewrite Ed. discriminate.
      * now apply (Ht n).
Qed.

(** The list can be built when every name has an attribute and no
    attribute makes the test raise. *)
Lemma collect_total (bpy_props : list string) (cllass : Compat.pyclass) (names : list string) :
  (forall name, In name names -> Compat.getattr cllass name <> None) ->
  Compat.testable bpy_props cllass ->
  exists props, Compat.collect bpy_props cllass names = Compat.Ok props.
Proof.
  intros Hg Ht. induction names as [| name names IH]; cbn; [now eexists |].
  destruct (Compat.getattr cllass name) as [prop |] eqn:Eg;
    [| elim (Hg name); [now left | exact Eg]].
  destruct (Compat.is_definition bpy_props prop) as [keep | e] eqn:Ed.
  - destruct IH as [ps ->]; [intros n Hn; apply Hg; now right |]. now eexists.
  - exfalso. apply (Ht name prop Eg). rewrite Ed. f_equal.
    now apply is_definition_raise in Ed.
Qed.

(** What is left of a class when the deletions went through, and that
    they do when the names are distinct and all in the class's own
    dictionary. *)
Lemma delete_props_ok (props : list (string * Compat.pyvalue)) :
  forall cllass,
    NoDup (map fst props) ->
    (forall name, In name (map fst props) -> Compat.lookup name (Compat.own cllass) <> None) ->
    exists cllass',
      Compat.delete_props cllass props = (None, cllass') /\
      Compat.inherited cllass' = Compat.inherited cllass /\
      Compat.own_annotations cllass' = Compat.own_annotations cllass /\
      Compat.inherited_annotations cllass' = Compat.inherited_annotations cllass /\
      forall name,
        Compat.lookup name (Compat.own cllass') =
          if existsb (String.eqb name) (map fst props) then None
          else Compat.lookup name (Compat.own cllass).
Proof.
  induction props as [| [k v] props IH]; intros cllass Hnd Hown; cbn [Compat.delete_props].
  - exists cllass. repeat split. 
  - inversion Hnd as [| ? ? Hk Hnd']; subst. cbn [fst]. unfold Compat.delattr.
    destruct (Compat.lookup k (Compat.own cllass)) as [w |] eqn:Ek;
      [| elim (Hown k); [now left | exact Ek]].
    destruct (IH (Compat.mkClass (Compat.remove k (Compat.own cllass))
                                 (Compat.inherited cllass)
                                 (Compat.own_annotations cllass)
                                 (Compat.inherited_annotations cllass)) Hnd')
      as (c' & Hd & Hi & Ha & Hia & Hl).
    + intros name Hin. cbn [Compat.own]. rewrite lookup_remove.
      destruct (String.eqb_spec name k) as [-> | _]; [contradiction |].
      apply Hown. now right.
    + exists c'. split; [exact Hd |]. cbn in Hi, Ha, Hia.
      split; [exact Hi |]. split; [exact Ha |]. split; [exact Hia |].
      intro name. rewrite Hl. cbn [Compat.own map fst existsb].
      rewrite lookup_remove.
      destruct (String.eqb_spec name k) as [-> | _]; cbn [orb].
      * now destruct (existsb (String.eqb k) (map fst props)).
      * reflexivity.
Qed.

(** Whatever the deletions come to, they raise nothing but
    [AttributeError], touch nothing but the class's own dictionary, and
    only take entries out of it. *)
Lemma delete_props_frame (props : list (string * Compat.pyvalue)) :
  forall cllass o cllass',
    Compat.delete_props cllass props = (o, cllass') ->
    (o = None \/ o = Some Compat.AttributeError) /\
    Compat.inherited cllass' = Compat.inherited cllass /\
    Compat.own_annotations cllass' = Compat.own_annotations cllass /\
    Compat.inherited_annotations cllass' = Compat.inherited_annotations cllass /\
    (forall name v, Compat.lookup name (Compat.own cllass') = Some v ->
                    Compat.lookup name (Compat.own cllass) = Some v) /\
    (forall name, Compat.lookup name (Compat.own cllass) <> None ->
                  Compat.lookup name (Compat.own cllass') = None ->
                  In name (map fst props)).
Proof.
  induction props as [| [k v] props IH]; intros cllass o c' H; cbn [Compat.delete_props] in H.
  - injection H as <- <-. split; [now left |].
    repeat split; auto; intros; contradiction.
  - cbn [fst] in H. unfold Compat.delattr in H.
    destruct (Compat.lookup k (Compat.own cllass)) as [w |] eqn:Ek.
    + apply IH in H. cbn in H. destruct H as (Ho & Hi & Ha & Hia & Hl & Hgone).
      split; [exact Ho |]. split; [exact Hi |]. split; [exact Ha |]. split; [exact Hia |].
      split.
      * intros name u Hu. apply Hl in Hu. rewrite lookup_remove in Hu.
        destruct (name =? k)%string; [discriminate | exact Hu].
      * intros name Hn Hn'. cbn [map fst In].
        destruct (String.eqb_spec name k) as [-> | N]; [now left | right].
        apply Hgone; [| exact Hn']. rewrite lookup_remove.
        destruct (String.eqb_spec name k) as [E | _]; [contradiction | exact Hn].
    + injection H as <- <-. split; [now right |].
      repeat split; auto; intros; contradiction.
Qed.


Lemma lookup_Some_In_pair (name : string) (d : list (string * Compat.pyvalue)) v :
  Compat.lookup name d = Some v -> In (name, v) d.
Proof.
  induction d as [| [k w] d IH]; cbn; [discriminate |].
  destruct (String.eqb_spec k name) as [-> | _].
  - intro H. injection H as ->. now left.
  - intro H. right. auto.
Qed.

Lemma existsb_eqb_In (name : string) (l : list string) :
  existsb (String.eqb name) l = true <-> In name l.
Proof.
  rewrite existsb_exists. split.
  - intros (x & Hx & E). apply String.eqb_eq in E. now subst.
  - intro H. exists name. split; [exact H | apply String.eqb_refl].
Qed.

Lemma defines_getattr (bpy_props : list string) (cllass : Compat.pyclass) (name : string) :
  Compat.defines bpy_props cllass name = true ->
  exists prop, Compat.getattr cllass name = Some prop /\
               Compat.is_definition bpy_props prop = Compat.Ok true.
Proof.
  unfold Compat.defines.
  destruct (Compat.getattr cllass name) as [prop |]; [| discriminate].
  destruct (Compat.is_definition bpy_props prop) as [[|] | e] eqn:E; try discriminate.
  intros _. exists prop. now split.
Qed.

(** The list [props] of a class: the names that define a property, each
    once, with the attribute [getattr] finds. *)
Lemma collect_dir (bpy_props : list string) (cllass : Compat.pyclass) props :
  Compat.collect bpy_props cllass (Compat.dir cllass) = Compat.Ok props ->
  NoDup (map fst props) /\
  Compat.testable bpy_props cllass /\
  (forall name, existsb (String.eqb name) (map fst props)
                = Compat.defines bpy_props cllass name) /\
  (forall name, Compat.lookup name props =
                if Compat.defines bpy_props cllass name
                then Compat.getattr cllass name else None).
Proof.
  intro H. destruct (collect_inv _ _ _ _ H) as (Hk & Hg & Ht).
  assert (Hin : forall name, In name (map fst props)
                             <-> Compat.defines bpy_props cllass name = true).
  { intro name. rewrite Hk, filter_In, dir_getattr. split; [tauto |].
    intro Hd. split; [| exact Hd].
    destruct (defines_getattr _ _ _ Hd) as (prop & -> & _). discriminate. }
  assert (Hex : forall name, existsb (String.eqb name) (map fst props)
                             = Compat.defines bpy_props cllass name).
  { intro name.
    destruct (Compat.defines bpy_props cllass name) eqn:Ed.
    - apply existsb_eqb_In, Hin, Ed.
    - destruct (existsb (String.eqb name) (map fst props)) eqn:Ee; [| reflexivity].
      apply existsb_eqb_In, Hin in Ee. congruence. }
  split; [rewrite Hk; apply NoDup_filter, dir_NoDup |].
  split.
  { intros name prop Hn. apply (Ht name); [| exact Hn].
    apply dir_getattr. rewrite Hn. discriminate. }
  split; [exact Hex |].
  intro name. destruct (Compat.lookup name props) as [v |] eqn:El.
  - pose proof (lookup_Some_In _ _ _ El) as Hname. apply Hin in Hname.
    rewrite Hname. symmetry. apply Hg. now apply lookup_Some_In_pair.
  - apply lookup_None_iff in El.
    destruct (Compat.defines bpy_props cllass name) eqn:Ed; [| reflexivity].
    apply Hin in Ed. contradiction.
Qed.

Lemma collect_raise (bpy_props : list string) (cllass : Compat.pyclass) (names : list string) e :
  (forall name, In name names -> Compat.getattr cllass name <> None) ->
  Compat.collect bpy_props cllass names = Compat.Raise e ->
  e = Compat.TypeError /\ ~ Compat.testable bpy_props cllass.
Proof.
  induction names as [| name names IH]; intros Hg H; cbn in H; [discriminate |].
  destruct (Compat.getattr cllass name) as [prop |] eqn:Eg;
    [| elim (Hg name); [now left | exact Eg]].
  destruct (Compat.is_definition bpy_props prop) as [keep | e0] eqn:Ed.
  - destruct (Compat.collect bpy_props cllass names) as [ps | e1]; [discriminate |].
    injection H as <-. apply IH; [| reflexivity]. intros n Hn. apply Hg. now right.
  - injection H as <-. pose proof (is_definition_raise _ _ _ Ed) as ->.
    split; [reflexivity |]. intro Ht. exact (Ht name prop Eg Ed).
Qed.


(** ** What the decorator does to a class *)

(** The effect of a call that finds every definition in the class's own
    dictionary. *)
Lemma props_compat_effect (bpy_props : list string) (cllass : Compat.pyclass) :
  Compat.testable bpy_props cllass ->
  (forall name, Compat.defines bpy_props cllass name = true ->
                Compat.lookup name (Compat.own cllass) <> None) ->
  exists cllass' a',
    Compat.props_compat bpy_props cllass = (None, cllass') /\
    Compat.inherited cllass' = Compat.inherited cllass /\
    (forall name,
       Compat.lookup name (Compat.own cllass') =
         if Compat.defines bpy_props cllass name then None
         else Compat.lookup name (Compat.own cllass)) /\
    Compat.annotations cllass' = Some a' /\
    (forall name,
       Compat.lookup name a' =
         if Compat.defines bpy_props cllass name then Compat.getattr cllass name
         else match Compat.annotations cllass with
              | Some a => Compat.lookup name a
              | None => None
              end) /\
    (Compat.own_annotations cllass = None ->
     Compat.inherited_annotations cllass <> None ->
     Compat.own_annotations cllass' = None /\
     Compat.inherited_annotations cllass' = Some a') /\
    (Compat.own_annotations cllass <> None \/ Compat.inherited_annotations cllass = None ->
     Compat.own_annotations cllass' = Some a' /\
     Compat.inherited_annotations cllass' = Compat.inherited_annotations cllass).
Proof.
  intros Ht Hown.
  destruct (collect_total bpy_props cllass (Compat.dir cllass)) as [props Hc];
    [intros name Hn; now apply dir_getattr | exact Ht |].
  destruct (collect_dir _ _ _ Hc) as (Hnd & _ & Hex & Hl).
  destruct (delete_props_ok props cllass Hnd) as (c1 & Hd & Hi & Ha & Hia & Hlo).
  { intros name Hin. apply Hown. rewrite <- Hex. now apply existsb_eqb_In. }
  assert (Hlo' : forall name,
             Compat.lookup name (Compat.own c1) =
               if Compat.defines bpy_props cllass name then None
               else Compat.lookup name (Compat.own cllass)).
  { intro name. rewrite Hlo. now rewrite Hex. }
  assert (Hup : forall a name,
             Compat.lookup name (Compat.update a props) =
               if Compat.defines bpy_props cllass name then Compat.getattr cllass name
               else Compat.lookup name a).
  { intros a name. rewrite (lookup_update name props Hnd), Hl.
    destruct (Compat.defines bpy_props cllass name) eqn:Ed; [| reflexivity].
    destruct (defines_getattr _ _ _ Ed) as (prop & -> & _). reflexivity. }
  unfold Compat.props_compat. rewrite Hc, Hd, (dict_distinct _ Hnd).
  unfold Compat.hasattr_annotations, Compat.update_annotations, Compat.annotations.
  rewrite Ha, Hia.
  destruct (Compat.own_annotations cllass) as [a |] eqn:Eoa;
    [| destruct (Compat.inherited_annotations cllass) as [b |] eqn:Eia];
    cbn [Compat.own Compat.inherited Compat.own_annotations Compat.inherited_annotations].
  - rewrite Ha. do 2 eexists. split; [reflexivity |].
    cbn [Compat.own Compat.inherited Compat.own_annotations Compat.inherited_annotations].
    split; [exact Hi |]. split; [exact Hlo' |]. split; [reflexivity |].
    split; [apply Hup |]. split; [discriminate |]. intros _. now split.
  - rewrite Ha, Hia. do 2 eexists. split; [reflexivity |].
    cbn [Compat.own Compat.inherited Compat.own_annotations Compat.inherited_annotations].
    split; [exact Hi |]. split; [exact Hlo' |]. split; [reflexivity |].
    split; [apply Hup |]. split; [intros _ _; now split |].
    intros [H | H]; [now elim H | discriminate].
  - do 2 eexists. split; [reflexivity |].
    cbn [Compat.own Compat.inherited Compat.own_annotations Compat.inherited_annotations].
    split; [exact Hi |]. split; [exact Hlo' |]. split; [reflexivity |].
    split; [| split].
    + intro name. rewrite Hup. reflexivity.
    + intros _ H. now elim H.
    + intros _. split; reflexivity.
Qed.

(** X14: when no attribute makes the membership test raise and every
    property definition that [getattr] finds is in the class's own
    dictionary, [props_compat] returns normally; the definitions are
    gone from the class's own dictionary and nothing else is; what the
    bases provide is as before; the class has annotations afterwards,
    which hold every definition under its name and, under every other
    name, what the annotations held before.  The dictionary that
    receives them is the class's own if it had one or if there was none
    at all, and otherwise the one inherited from a base. *)
Theorem props_compat_moves (bpy_props : list string) (cllass : Compat.pyclass) :
  Compat.testable bpy_props cllass ->
  (forall name, Compat.defines bpy_props cllass name = true ->
                Compat.lookup name (Compat.own cllass) <> None) ->
  exists cllass' a',
    Compat.props_compat bpy_props cllass = (None, cllass') /\
    Compat.inherited cllass' = Compat.inherited cllass /\
    (forall name,
       Compat.lookup name (Compat.own cllass') =
         if Compat.defines bpy_props cllass name then None
         else Compat.lookup name (Compat.own cllass)) /\
    Compat.annotations cllass' = Some a' /\
    (forall name,
       Compat.lookup name a' =
         if Compat.defines bpy_props cllass name then Compat.getattr cllass name
         else match Compat.annotations cllass with
              | Some a => Compat.lookup name a
              | None => None
              end) /\
    (Compat.own_annotations cllass = None ->
     Compat.inherited_annotations cllass <> None ->
     Compat.own_annotations cllass' = None /\
     Compat.inherited_annotations cllass' = Some a') /\
    (Compat.own_annotations cllass <> None \/ Compat.inherited_annotations cllass = None ->
     Compat.own_annotations cllass' = Some a' /\
     Compat.inherited_annotations cllass' = Compat.inherited_annotations cllass).
Proof. exact (props_compat_effect bpy_props cllass). Qed.

Lemma getattr_In (cllass : Compat.pyclass) (name : string) prop :
  Compat.getattr cllass name = Some prop ->
  In (name, prop) (Compat.own cllass ++ Compat.inherited cllass).
Proof.
  unfold Compat.getattr. intro H. apply in_or_app.
  destruct (Compat.lookup name (Compat.own cllass)) as [v |] eqn:E.
  - injection H as <-. left. now apply lookup_Some_In_pair.
  - right. now apply lookup_Some_In_pair.
Qed.

Lemma Curlicue_class_testable :
  Compat.testable Compat.bpy_props_2_83 Compat.Curlicue_class.
Proof.
  intros name prop H. apply getattr_In in H. cbn in H.
  repeat (destruct H as [H | H]; [injection H as <- <-; intro E; vm_compute in E; discriminate E |]).
  contradiction.
Qed.

Lemma Curlicue_class_definitions_own (name : string) :
  Compat.defines Compat.bpy_props_2_83 Compat.Curlicue_class name = true ->
  Compat.lookup name (Compat.own Compat.Curlicue_class) <> None.
Proof.
  intros Hd Hn. destruct (defines_getattr _ _ _ Hd) as (prop & Hg & Hp).
  unfold Compat.getattr in Hg. rewrite Hn in Hg.
  apply lookup_Some_In_pair in Hg. destruct Hg as [Hg | []].
  injection Hg as <- <-. discriminate Hp.
Qed.

Lemma props_compat_moves_witness :
  exists cllass' a',
    Compat.props_compat Compat.bpy_props_2_83 Compat.Curlicue_class = (None, cllass') /\
    Compat.annotations cllass' = Some a' /\
    Compat.lookup "radius" (Compat.own cllass') = None /\
    Compat.lookup "radius" a' = Some (Compat.Tuple [Compat.Function "FloatProperty"; Compat.keywords]) /\
    Compat.lookup "bl_idname" (Compat.own cllass') = Some (Compat.Object true).
Proof.
  destruct (props_compat_moves Compat.bpy_props_2_83 Compat.Curlicue_class
              Curlicue_class_testable Curlicue_class_definitions_own)
    as (c' & a' & Hp & _ & Hown & Hann & Ha & _).
  exists c', a'. split; [exact Hp |]. split; [exact Hann |].
  split; [exact (Hown "radius"%string) |].
  split; [exact (Ha "radius"%string) | exact (Hown "bl_idname"%string)].
Defined.

(** ** When the decorator raises *)



(** X16: when [props_compat] raises [AttributeError] it has not come to
    the annotations: those of the class and of its bases are as before,
    and so is what the bases provide; but the class's own dictionary may
    already have lost entries, all of them property definitions.  These
    definitions are then neither attributes of their own nor
    annotations. *)
Theorem props_compat_attribute_error (bpy_props : list string) (cllass : Compat.pyclass) :
  fst (Compat.props_compat bpy_props cllass) = Some Compat.AttributeError ->
  let cllass' := snd (Compat.props_compat bpy_props cllass) in
  Compat.own_annotations cllass' = Compat.own_annotations cllass /\
  Compat.inherited_annotations cllass' = Compat.inherited_annotations cllass /\
  Compat.inherited cllass' = Compat.inherited cllass /\
  (forall name v, Compat.lookup name (Compat.own cllass') = Some v ->
                  Compat.lookup name (Compat.own cllass) = Some v) /\
  (forall name, Compat.lookup name (Compat.own cllass) <> None ->
                Compat.lookup name (Compat.own cllass') = None ->
                Compat.defines bpy_props cllass name = true).
Proof.
  unfold Compat.props_compat.
  destruct (Compat.collect bpy_props cllass (Compat.dir cllass)) as [props | e] eqn:Hc.
  - destruct (collect_dir _ _ _ Hc) as (_ & _ & Hex & _).
    destruct (Compat.delete_props cllass props) as [[e |] c1] eqn:Hd.
    + cbn [fst snd]. intros _.
      destruct (delete_props_frame _ _ _ _ Hd) as (_ & Hi & Ha & Hia & Hl & Hgone).
      split; [exact Ha |]. split; [exact Hia |]. split; [exact Hi |].
      split; [exact Hl |].
      intros name Hn Hn'. rewrite <- Hex. apply existsb_eqb_In. now apply Hgone.
    + intro H. exfalso. revert H. destruct c1 as [o i [a |] [b |]]; discriminate.
  - cbn [fst snd]. intro H. injection H as ->.
    assert (Hdir : forall name, In name (Compat.dir cllass) ->
                                Compat.getattr cllass name <> None)
      by (intros name Hn; now apply dir_getattr).
    destruct (collect_raise _ _ _ _ Hdir Hc) as [H _]. discriminate H.
Qed.

Lemma props_compat_attribute_error_witness :
  fst (Compat.props_compat Compat.bpy_props_2_83 Compat.heir) = Some Compat.AttributeError /\
  Compat.lookup "angle" (Compat.own Compat.heir) <> None /\
  Compat.lookup "angle" (Compat.own (snd (Compat.props_compat Compat.bpy_props_2_83 Compat.heir)))
    = None /\
  Compat.annotations (snd (Compat.props_compat Compat.bpy_props_2_83 Compat.heir)) = None.
Proof.
  assert (He : fst (Compat.props_compat Compat.bpy_props_2_83 Compat.heir)
               = Some Compat.AttributeError) by (vm_compute; reflexivity).
  split; [exact He |]. split; [vm_compute; discriminate |].
  split; [vm_compute; reflexivity |].
  destruct (props_compat_attribute_error _ _ He) as (Ha & Hia & _).
  unfold Compat.annotations. now rewrite Ha, Hia.
Defined.

(** A call that finds no definition. *)
Lemma props_compat_nothing_to_move_aux (bpy_props : list string) (cllass : Compat.pyclass) :
  Compat.testable bpy_props cllass ->
  (forall name, Compat.defines bpy_props cllass name = false) ->
  Compat.props_compat bpy_props cllass =
    (None,
     if Compat.hasattr_annotations cllass then cllass
     else Compat.mkClass (Compat.own cllass) (Compat.inherited cllass) (Some []) None).
Proof.
  intros Ht Hnone.
  destruct (collect_total bpy_props cllass (Compat.dir cllass)) as [props Hc];
    [intros name Hn; now apply dir_getattr | exact Ht |].
  assert (Hp : props = []).
  { destruct (collect_inv _ _ _ _ Hc) as (Hk & _).
    assert (Hf : filter (Compat.defines bpy_props cllass) (Compat.dir cllass) = []).
    { clear -Hnone. generalize (Compat.dir cllass) as l.
      induction l as [| n l IH]; cbn; [reflexivity |]. now rewrite Hnone. }
    rewrite Hf in Hk. now destruct props. }
  subst props. unfold Compat.props_compat. rewrite Hc. cbn [Compat.delete_props].
  destruct cllass as [o i [a |] [b |]]; reflexivity.
Qed.

(** X17: on a class none of whose attributes is a property definition
    (and none of which makes the test raise), as when the definitions
    are no tuples, [props_compat] deletes nothing and adds nothing: a
    class that has annotations, its own or inherited, is returned as it
    is, and a class without gets an empty dictionary of its own. *)
Theorem props_compat_nothing_to_move (bpy_props : list string) (cllass : Compat.pyclass) :
  Compat.testable bpy_props cllass ->
  (forall name, Compat.defines bpy_props cllass name = false) ->
  Compat.props_compat bpy_props cllass =
    (None,
     if Compat.hasattr_annotations cllass then cllass
     else Compat.mkClass (Compat.own cllass) (Compat.inherited cllass) (Some []) None).
Proof. exact (props_compat_nothing_to_move_aux bpy_props cllass). Qed.

Lemma props_compat_effect_again (bpy_props : list string) (cllass cllass' : Compat.pyclass) :
  Compat.testable bpy_props cllass ->
  (forall name prop, Compat.lookup name (Compat.inherited cllass) = Some prop ->
                     Compat.is_definition bpy_props prop = Compat.Ok false) ->
  Compat.inherited cllass' = Compat.inherited cllass ->
  (forall name,
     Compat.lookup name (Compat.own cllass') =
       if Compat.defines bpy_props cllass name then None
       else Compat.lookup name (Compat.own cllass)) ->
  Compat.testable bpy_props cllass' /\
  forall name, Compat.defines bpy_props cllass' name = false.
Proof.
  intros Ht Hinh Hi Hown.
  assert (Hcase : forall name prop,
             Compat.getattr cllass' name = Some prop ->
             Compat.is_definition bpy_props prop = Compat.Ok false).
  { intros name prop Hg. unfold Compat.getattr in Hg. rewrite Hown, Hi in Hg.
    destruct (Compat.defines bpy_props cllass name) eqn:Ed.
    - now apply (Hinh name).
    - destruct (Compat.lookup name (Compat.own cllass)) as [v |] eqn:El.
      + injection Hg as <-.
        assert (Hg' : Compat.getattr cllass name = Some v)
          by (unfold Compat.getattr; now rewrite El).
        unfold Compat.defines in Ed. rewrite Hg' in Ed.
        pose proof (Ht name v Hg') as Hne.
        destruct (Compat.is_definition bpy_props v) as [[|] | e] eqn:E;
          [discriminate | reflexivity |].
        elim Hne. f_equal. now apply is_definition_raise in E.
      + now apply (Hinh name). }
  split.
  - intros name prop Hg. rewrite (Hcase _ _ Hg). discriminate.
  - intro name. unfold Compat.defines.
    destruct (Compat.getattr cllass' name) as [prop |] eqn:Hg; [| reflexivity].
    now rewrite (Hcase _ _ Hg).
Qed.

(** X18: decorating twice is decorating once.  When the first call
    returns normally (nothing makes the test raise, every definition is
    the class's own) and the bases provide no property definition, a
    second call on the resulting class returns normally and leaves it as
    it is. *)
Theorem props_compat_idempotent (bpy_props : list string) (cllass : Compat.pyclass) :
  Compat.testable bpy_props cllass ->
  (forall name, Compat.defines bpy_props cllass name = true ->
                Compat.lookup name (Compat.own cllass) <> None) ->
  (forall name prop, Compat.lookup name (Compat.inherited cllass) = Some prop ->
                     Compat.is_definition bpy_props prop = Compat.Ok false) ->
  exists cllass',
    Compat.props_compat bpy_props cllass = (None, cllass') /\
    Compat.props_compat bpy_props cllass' = (None, cllass').
Proof.
  intros Ht Hown Hinh.
  destruct (props_compat_effect bpy_props cllass Ht Hown)
    as (c' & a' & Hp & Hi & Hlo & Hann & _).
  exists c'. split; [exact Hp |].
  destruct (props_compat_effect_again _ _ _ Ht Hinh Hi Hlo) as [Ht' Hnone].
  rewrite (props_compat_nothing_to_move_aux bpy_props c' Ht' Hnone).
  f_equal. unfold Compat.hasattr_annotations, Compat.annotations in *.
  destruct (Compat.own_annotations c'); [reflexivity |].
  destruct (Compat.inherited_annotations c'); [reflexivity | discriminate].
Qed.

Lemma no_definitions (bpy_props : list string) (cllass : Compat.pyclass) :
  Forall (fun kv => Compat.is_definition bpy_props (snd kv) = Compat.Ok false)
         (Compat.own cllass ++ Compat.inherited cllass) ->
  Compat.testable bpy_props cllass /\
  forall name, Compat.defines bpy_props cllass name = false.
Proof.
  intro H. rewrite Forall_forall in H.
  assert (Hg : forall name prop, Compat.getattr cllass name = Some prop ->
                                 Compat.is_definition bpy_props prop = Compat.Ok false).
  { intros name prop Hg. apply getattr_In in Hg. exact (H _ Hg). }
  split.
  - intros name prop Hp. rewrite (Hg _ _ Hp). discriminate.
  - intro name. unfold Compat.defines.
    destruct (Compat.getattr cllass name) as [prop |] eqn:E; [| reflexivity].
    now rewrite (Hg _ _ E).
Qed.

Lemma props_compat_nothing_to_move_witness :
  Compat.props_compat Compat.bpy_props_2_83 Compat.deferred =
    (None,
     Compat.mkClass (Compat.own Compat.deferred) (Compat.inherited Compat.deferred)
                    (Some []) None).
Proof.
  destruct (no_definitions Compat.bpy_props_2_83 Compat.deferred) as [Ht Hn].
  { repeat constructor. }
  exact (props_compat_nothing_to_move _ _ Ht Hn).
Defined.

Lemma props_compat_idempotent_witness :
  exists cllass',
    Compat.props_compat Compat.bpy_props_2_83 Compat.Curlicue_class = (None, cllass') /\
    Compat.props_compat Compat.bpy_props_2_83 cllass' = (None, cllass').
Proof.
  apply (props_compat_idempotent _ _ Curlicue_class_testable Curlicue_class_definitions_own).
  intros name prop H. apply lookup_Some_In_pair in H. destruct H as [H | []].
  injection H as <- <-. reflexivity.
Defined.

(** ** What counts as a property definition *)

Lemma endswith_Property_RemoveProperty :
  Compat.endswith "RemoveProperty" "Property" = true.
Proof. reflexivity. Qed.



(** A class that only inherits its annotations: the definition lands in
    the dictionary of the base. *)
Lemma props_compat_writes_to_base :
  Compat.props_compat Compat.bpy_props_2_83 Compat.annotated_base =
    (None,
     Compat.mkClass [] [] None
       (Some [("size"%string, Compat.Object true);
              ("angle"%string,
               Compat.Tuple [Compat.Function "FloatProperty"; Compat.keywords])])).
Proof. reflexivity. Qed.
